(** * Nightfall optimistic rollup: State.sol, the Transaction class and the
      transaction handlers, embedded and verified.

    The development follows the sources:
    - [StateContract]: nightfall-deployer/contracts/State.sol
      ([proposeBlock], [getTreeHeight], [removeProposer]);
    - [TransactionClass]: common-files/classes/transaction.mjs
      ([keccak], the constructor, [checkHash]);
    - [TransactionHandler]: the optimist's transaction-submitted handler
      ([checkAlreadyInBlock], [submitTransaction],
      [transactionSubmittedEventHandler]) and the proposer route
      [/offchain-transaction];
    - [WithdrawService]: the client's withdraw service ([withdraw]). *)

From Stdlib Require Import ZArith List Bool Lia String.
From stdpp Require Import base option list gmap strings pretty.

(** ** Words and bytes of the EVM *)

Module Evm.
Local Open Scope Z_scope.

(** A byte is a [Z] in [0, 256); a word is a [Z] in [0, 2^256). *)
Definition WORD_MODULUS : Z := 2 ^ 256.

(** Big-endian value of a byte string (what [mload] returns for 32 bytes). *)
Definition be_value (bs : list Z) : Z :=
  fold_left (fun acc b => acc * 256 + b) bs 0.

(** Big-endian bytes of [w], [n] of them (what [mstore] writes for [n = 32]). *)
Fixpoint be_bytes (n : nat) (w : Z) : list Z :=
  match n with
  | O => []
  | S n' => be_bytes n' (w / 256) ++ [w mod 256]
  end.

Definition word_bytes (w : Z) : list Z := be_bytes 32 w.

(** ASCII bytes of a string literal. *)
Fixpoint string_bytes (s : string) : list Z :=
  match s with
  | EmptyString => []
  | String c s' => Z.of_nat (Ascii.nat_of_ascii c) :: string_bytes s'
  end.

(** Writing [bs] into a byte region at offset [off]. *)
Definition mstore_bytes (mem : list Z) (off : nat) (bs : list Z) : list Z :=
  firstn off mem ++ bs ++ skipn (off + length bs) mem.

(** Outcome of a contract call: the new value, or a revert (all state
    changes of the call are undone) with its reason string. *)
Inductive result (A : Type) : Type :=
  | Ok (a : A)
  | Revert (reason : string).
Arguments Ok {A} a.
Arguments Revert {A} reason.

Definition bind {A B} (r : result A) (k : A -> result B) : result B :=
  match r with
  | Ok a => k a
  | Revert m => Revert m
  end.

(** [require(c, msg)] *)
Definition require (c : bool) (msg : string) : result unit :=
  if c then Ok tt else Revert msg.

Definition is_ok {A} (r : result A) : bool :=
  match r with Ok _ => true | Revert _ => false end.

Definition reverts {A} (r : result A) : Prop :=
  exists m, r = Revert m.

Lemma be_value_app (xs ys : list Z) :
  be_value (xs ++ ys) = be_value xs * 256 ^ Z.of_nat (length ys) + be_value ys.
Proof.
  revert xs. induction ys as [|y ys IH] using rev_ind; intros xs.
  - rewrite app_nil_r. unfold be_value. simpl. lia.
  - rewrite app_assoc. unfold be_value in *.
    rewrite (fold_left_app _ (xs ++ ys)), (fold_left_app _ ys). simpl.
    rewrite IH, length_app. simpl.
    replace (Z.of_nat (length ys + 1)) with (Z.of_nat (length ys) + 1) by lia.
    rewrite Z.pow_add_r by lia. lia.
Qed.

Lemma be_value_nonneg (xs : list Z) :
  Forall (fun b => 0 <= b) xs -> 0 <= be_value xs.
Proof.
  induction xs as [|x xs IH] using rev_ind; intros H.
  - unfold be_value. simpl. lia.
  - apply Forall_app in H as [H1 H2]. inversion H2; subst.
    rewrite be_value_app. simpl. specialize (IH H1).
    unfold be_value at 2. simpl. lia.
Qed.

Lemma length_be_bytes (n : nat) (w : Z) : length (be_bytes n w) = n.
Proof.
  revert w. induction n as [|n IH]; intros w; simpl; [reflexivity|].
  rewrite length_app, IH. simpl. lia.
Qed.

Lemma be_bytes_range (n : nat) (w : Z) :
  Forall (fun b => 0 <= b < 256) (be_bytes n w).
Proof.
  revert w. induction n as [|n IH]; intros w; simpl; [constructor|].
  apply Forall_app. split; [apply IH|].
  constructor; [|constructor]. apply Z.mod_pos_bound. lia.
Qed.

End Evm.

(** ** State.sol *)

Module StateContract.
Import Evm.
Local Open Scope Z_scope.

(** [struct BlockData], one entry of [blockHashes]. *)
Record BlockData := mkBlockData { blockHash : Z; time : Z }.

(** Modelled from the spec: [struct LinkedAddress] is declared in
    Structures.sol, which is not among the sources; these are the members
    State.sol reads and writes. *)
Record LinkedAddress := mkLinkedAddress {
  thisAddress : Z;
  previousAddress : Z;
  nextAddress : Z;
  url : string
}.

(** The value every storage slot holds before it is written, and after
    [delete]. *)
Definition zeroLinkedAddress : LinkedAddress := mkLinkedAddress 0 0 0 "".

(** Modelled from the spec: [struct Block] is declared in Structures.sol,
    which is not among the sources. State.sol names [proposer],
    [blockNumberL2], [previousBlockHash] and reads the transaction hashes
    root from the last of the block's slots; the remaining members are the
    leaf count, the commitment root and the frontier hash of the spec's data
    model. Each member fills one 32-byte calldata slot. *)
Record Block := mkBlock {
  leafCount : Z;
  proposer : Z;
  root : Z;
  blockNumberL2 : Z;
  previousBlockHash : Z;
  frontierHash : Z;
  transactionHashesRoot : Z
}.

Definition blockSlotsOf (b : Block) : list Z :=
  [leafCount b; proposer b; root b; blockNumberL2 b; previousBlockHash b;
   frontierHash b; transactionHashesRoot b].

(** [BLOCK_STRUCTURE_SLOTS] *)
Definition BLOCK_STRUCTURE_SLOTS : nat := 7.

(** Modelled from the spec: [struct Transaction] is declared in
    Structures.sol, which is not among the sources; its members are in the
    order of the transaction tuple hashed by transaction.mjs, which puts the
    fee in slot 1 and the transaction type in slot 2, where State.sol
    reads them. *)
Record Transaction := mkTransaction {
  value : Z;
  fee : Z;
  transactionType : Z;
  tokenType : Z;
  historicRootBlockNumberL2 : list Z;
  tokenId : Z;
  ercAddress : Z;
  recipientAddress : Z;
  commitments : list Z;
  nullifiers : list Z;
  compressedSecrets : list Z;
  proof : list Z
}.

(** The calldata slots of one transaction, [TRANSACTION_STRUCTURE_SLOTS] of
    them. *)
Definition transactionSlotsOf (t : Transaction) : list Z :=
  [value t; fee t; transactionType t; tokenType t]
  ++ historicRootBlockNumberL2 t
  ++ [tokenId t; ercAddress t; recipientAddress t]
  ++ commitments t ++ nullifiers t ++ compressedSecrets t ++ proof t.

(** [TransactionTypes.DEPOSIT] *)
Definition DEPOSIT : Z := 0.

Inductive Event :=
  | BlockProposed
  | Rollback (blockNumberL2 : Z)
  | NewCurrentProposer (addr : Z).

(** The contract's storage, with the log of emitted events. [paused] is the
    flag of Pausable.sol behind [whenNotPaused]. A Solidity mapping is
    total: a key never written reads as the zero value. *)
Record Storage := mkStorage {
  blockHashes : list BlockData;
  proposers : gmap Z LinkedAddress;
  feeBook : gmap Z (Z * Z);
  currentProposer : LinkedAddress;
  proposerStartBlock : Z;
  proposersAddress : Z;
  challengesAddress : Z;
  shieldAddress : Z;
  paused : bool;
  events : list Event
}.

(** [msg] and [block] of the call. *)
Record Call := mkCall {
  msg_sender : Z;
  msg_value : Z;
  block_timestamp : Z;
  block_number : Z
}.

(** [proposers[a]] *)
Definition proposerAt (m : gmap Z LinkedAddress) (a : Z) : LinkedAddress :=
  default zeroLinkedAddress (m !! a).

Definition setNextAddress (v : Z) (p : LinkedAddress) : LinkedAddress :=
  mkLinkedAddress (thisAddress p) (previousAddress p) v (url p).

Definition setPreviousAddress (v : Z) (p : LinkedAddress) : LinkedAddress :=
  mkLinkedAddress (thisAddress p) v (nextAddress p) (url p).

(** [modifier onlyRegistered] *)
Definition onlyRegistered (c : Call) (s : Storage) : result unit :=
  require ((msg_sender c =? proposersAddress s)
           || (msg_sender c =? challengesAddress s)
           || (msg_sender c =? shieldAddress s))
    "This address is not authorised to call this function".

(** [function removeProposer(address proposer) public onlyRegistered] *)
Definition removeProposer (c : Call) (proposer : Z) (s : Storage) : result Storage :=
  bind (onlyRegistered c s) (fun _ =>
    let previousAddress := previousAddress (proposerAt (proposers s) proposer) in
    let nextAddress := nextAddress (proposerAt (proposers s) proposer) in
    let m1 := delete proposer (proposers s) in
    let m2 := <[previousAddress :=
                 setNextAddress (thisAddress (proposerAt m1 nextAddress))
                   (proposerAt m1 previousAddress)]> m1 in
    let m3 := <[nextAddress :=
                 setPreviousAddress (thisAddress (proposerAt m2 previousAddress))
                   (proposerAt m2 nextAddress)]> m2 in
    let current := proposerAt m3 nextAddress in
    Ok (mkStorage (blockHashes s) m3 (feeBook s) current (block_number c)
          (proposersAddress s) (challengesAddress s) (shieldAddress s)
          (paused s)
          (events s ++ [NewCurrentProposer (thisAddress current)]))).

(** [getTreeHeight(leaves)]: [_height] starts at 1 and grows while
    [2 ^ _height < leaves]. The loop runs at most [leaves] times, which is
    the fuel given here; [getTreeHeight_spec] shows that the fuel is never
    what stops it. The count is a calldata array length, far below the
    2^256 at which [exp] would wrap. *)
Fixpoint getTreeHeight_loop (fuel : nat) (_height leaves : nat) : nat :=
  match fuel with
  | O => _height
  | S fuel' =>
      if (2 ^ _height <? leaves)%nat
      then getTreeHeight_loop fuel' (S _height) leaves
      else _height
  end.

Definition getTreeHeight (leaves : nat) : nat :=
  getTreeHeight_loop leaves 1 leaves.

Section Contract.

(** [keccak256] over a byte string. *)
Variable keccak256 : list Z -> Z.

(** Constants of Config.sol, which is not among the sources. *)
Variable BLOCK_STAKE : Z.
Variable TRANSACTIONS_PER_BLOCK : nat.

(** What the account at an address returns when called with the given
    calldata (an account without code returns no data). *)
Variable call_returndata : Z -> list Z -> list Z.

(** [shieldAddress.slot]: the index of the storage slot the compiler
    assigns to the state variable [shieldAddress]. *)
Variable shieldAddress_slot : Z.

(** [keccak256(ptr, len)] over whole memory slots. *)
Definition keccak_slots (ws : list Z) : Z :=
  keccak256 (flat_map word_bytes ws).

(** The hash of a transaction as the assembly computes it: over its
    calldata slots. *)
Definition hashTransaction (t : Transaction) : Z :=
  keccak_slots (transactionSlotsOf t).

(** The hash of a block as the assembly computes it: over the block's
    [BLOCK_STRUCTURE_SLOTS] calldata slots. *)
Definition hashBlock (b : Block) : Z :=
  keccak_slots (firstn BLOCK_STRUCTURE_SLOTS (blockSlotsOf b)).

(** [bytes4(keccak256('getTransactionEscrowed(bytes32)'))] *)
Definition checkTxEscrowedSignature : list Z :=
  firstn 4 (word_bytes (keccak256 (string_bytes "getTransactionEscrowed(bytes32)"))).

(** The escrow check of one deposit, on the two scratch slots at [x]:
    the signature is stored at [x], the transaction hash at [x + 4], the
    call goes to the address [shieldAddress.slot] with the 36 bytes at [x]
    as input and at most 32 bytes of its return data are copied over [x];
    the result is [mload(x)], and zero makes the block revert. The first
    36 bytes of the scratch are written before they are read, so what the
    two slots held before does not matter. *)
Definition escrowScratch (txHash : Z) : list Z :=
  let x0 := replicate 64 0 in
  let x1 := mstore_bytes x0 0 (checkTxEscrowedSignature ++ replicate 28 0) in
  mstore_bytes x1 4 (word_bytes txHash).

Definition escrowWord (txHash : Z) : Z :=
  let x2 := escrowScratch txHash in
  let ret := call_returndata shieldAddress_slot (firstn 36 x2) in
  let x3 := mstore_bytes x2 0 (firstn 32 ret) in
  be_value (firstn 32 x3).

(** The first assembly loop: hash every transaction into its slot of the
    transaction hashes array and check the escrow of every deposit. *)
Fixpoint hashAndCheckEscrow (i : nat) (ts : list Transaction) (hashes : list Z)
  : result (list Z) :=
  match ts with
  | [] => Ok hashes
  | t :: ts' =>
      let hashes' := <[i := hashTransaction t]> hashes in
      if transactionType t =? 0 then
        if escrowWord (default 0 (hashes' !! i)) =? 0 then Revert ""
        else hashAndCheckEscrow (S i) ts' hashes'
      else hashAndCheckEscrow (S i) ts' hashes'
  end.

(** The inner loop of the root calculation, [n] iterations from [j]: the
    node of slots [2j] and [2j+1] is stored in slot [j]. *)
Fixpoint levelLoop (n j : nat) (hashes : list Z) : list Z :=
  match n with
  | O => hashes
  | S n' =>
      let left := default 0 (hashes !! (j * 2)%nat) in
      let right := default 0 (hashes !! (j * 2 + 1)%nat) in
      let both := (left =? 0) && (right =? 0) in
      let hashes1 := if both then <[j := 0]> hashes else hashes in
      let hashes2 :=
        if negb both
        then <[j := keccak_slots [default 0 (hashes1 !! (j * 2)%nat);
                                  default 0 (hashes1 !! (j * 2 + 1)%nat)]]> hashes1
        else hashes1 in
      levelLoop n' (S j) hashes2
  end.

(** The outer loop, for [i] from the tree height down to 1. *)
Fixpoint rootLoop (i : nat) (hashes : list Z) : list Z :=
  match i with
  | O => hashes
  | S i' => rootLoop i' (levelLoop (2 ^ i') 0 hashes)
  end.

(** The fees of the block, summed by kind with checked additions. *)
Fixpoint feePayments (ts : list Transaction) (eth matic : Z) : result (Z * Z) :=
  match ts with
  | [] => Ok (eth, matic)
  | t :: ts' =>
      if transactionType t =? DEPOSIT then
        if eth + fee t <? WORD_MODULUS then feePayments ts' (eth + fee t) matic
        else Revert "panic: arithmetic overflow"
      else
        if matic + fee t <? WORD_MODULUS then feePayments ts' eth (matic + fee t)
        else Revert "panic: arithmetic overflow"
  end.

(** [keccak256(abi.encodePacked(proposer, blockNumberL2))] *)
Definition feeBookKey (proposer blockNumberL2 : Z) : Z :=
  keccak256 (be_bytes 20 proposer ++ word_bytes blockNumberL2).

(** The memory the assembly works on: the transaction hashes array has
    [2 ^ getTreeHeight(t.length)] slots of fresh (zero) memory. *)
Definition freshHashes (n : nat) : list Z :=
  replicate (2 ^ getTreeHeight n) 0.

(** The assembly block: the block hash, or a revert. *)
Definition proposeBlockAssembly (b : Block) (t : list Transaction) : result Z :=
  let block := firstn BLOCK_STRUCTURE_SLOTS (blockSlotsOf b) in
  bind (hashAndCheckEscrow 0 t (freshHashes (length t))) (fun hashes =>
    let hashes' := rootLoop (getTreeHeight (length t)) hashes in
    if negb (default 0 (block !! (BLOCK_STRUCTURE_SLOTS - 1)%nat)
             =? default 0 (hashes' !! 0%nat))
    then Revert ""
    else Ok (keccak_slots block)).

(** [function proposeBlock(Block calldata b, Transaction[] calldata t)
      external payable onlyCurrentProposer whenNotPaused] *)
Definition proposeBlock (c : Call) (b : Block) (t : list Transaction) (s : Storage)
  : result Storage :=
  bind (require (msg_sender c =? thisAddress (currentProposer s))
          "Only the current proposer can call this.") (fun _ =>
  bind (require (negb (paused s)) "Pausable: paused") (fun _ =>
  bind (require (blockNumberL2 b =? Z.of_nat (length (blockHashes s)))
          "The block is out of order") (fun _ =>
  bind (if negb (length (blockHashes s) =? 0)%nat
        then require (previousBlockHash b
                      =? blockHash (default (mkBlockData 0 0)
                                      (blockHashes s !! (length (blockHashes s) - 1)%nat)))
               "The block is flawed or out of order"
        else Ok tt) (fun _ =>
  bind (require (BLOCK_STAKE <=? msg_value c) "The stake payment is incorrect") (fun _ =>
  bind (require (proposer b =? msg_sender c) "The proposer address is not the sender") (fun _ =>
  bind (require (length t <=? TRANSACTIONS_PER_BLOCK)%nat
          "The block has too many transactions") (fun _ =>
  bind (feePayments t 0 0) (fun fees =>
    let input := feeBookKey (proposer b) (blockNumberL2 b) in
    let feeBook' := <[input := fees]> (feeBook s) in
  bind (proposeBlockAssembly b t) (fun blockHash =>
    Ok (mkStorage
          (blockHashes s ++ [mkBlockData blockHash (block_timestamp c)])
          (proposers s) feeBook' (currentProposer s) (proposerStartBlock s)
          (proposersAddress s) (challengesAddress s) (shieldAddress s)
          (paused s) (events s ++ [BlockProposed]))))))))))).

(** *** The tree the root loop computes, as a function of the leaves *)

(** An internal node: the zero constant when both children are zero, else
    the hash of the two children. *)
Definition node (l r : Z) : Z :=
  if (l =? 0) && (r =? 0) then 0 else keccak_slots [l; r].

Fixpoint pairUp (ws : list Z) : list Z :=
  match ws with
  | l :: r :: rest => node l r :: pairUp rest
  | _ => []
  end.

Fixpoint merkleRoot (h : nat) (leaves : list Z) : Z :=
  match h with
  | O => default 0 (leaves !! 0%nat)
  | S h' => merkleRoot h' (pairUp leaves)
  end.

(** The leaf slots of the tree of a transaction list: the transaction
    hashes, then zeros up to [2 ^ getTreeHeight(t.length)]. *)
Definition leafSlots (t : list Transaction) : list Z :=
  map hashTransaction t
  ++ replicate (2 ^ getTreeHeight (length t) - length t) 0.

(** *** What the call checks and keeps *)

(** The escrow loop passes exactly when no deposit's escrow word is zero. *)
Definition escrowChecksPass (t : list Transaction) : bool :=
  forallb (fun tx => negb (transactionType tx =? 0)
                     || negb (escrowWord (hashTransaction tx) =? 0)) t.

(** The guards of [proposeBlock], in the order the call evaluates them. *)
Record Guards (c : Call) (b : Block) (t : list Transaction) (s : Storage) : Prop := {
  g_currentProposer : msg_sender c = thisAddress (currentProposer s);
  g_notPaused : paused s = false;
  g_blockNumber : blockNumberL2 b = Z.of_nat (length (blockHashes s));
  g_previousHash :
    length (blockHashes s) <> 0%nat ->
    Some (previousBlockHash b) = blockHash <$> last (blockHashes s);
  g_stake : BLOCK_STAKE <= msg_value c;
  g_proposer : proposer b = msg_sender c;
  g_count : (length t <= TRANSACTIONS_PER_BLOCK)%nat;
  g_fees : is_ok (feePayments t 0 0) = true;
  g_escrow : escrowChecksPass t = true;
  g_root : transactionHashesRoot b
           = merkleRoot (getTreeHeight (length t)) (leafSlots t)
}.

(** [chained bs hs]: the stored entries [hs] are the hashes of the blocks
    [bs], numbered from 0 without gaps, each linked to the one before. *)
Definition chained (bs : list Block) (hs : list BlockData) : Prop :=
  length bs = length hs
  /\ (forall i b, bs !! i = Some b ->
        blockNumberL2 b = Z.of_nat i
        /\ blockHash <$> hs !! i = Some (hashBlock b))
  /\ (forall i p b, bs !! i = Some p -> bs !! S i = Some b ->
        previousBlockHash b = hashBlock p).

(** *** The tree height *)

Lemma pow2_gt (h : nat) : (h < 2 ^ h)%nat.
Proof. apply Nat.pow_gt_lin_r. lia. Qed.

Lemma getTreeHeight_loop_spec (leaves fuel h : nat) :
  (1 <= h)%nat ->
  (leaves + 1 <= h + fuel)%nat ->
  (forall h', 1 <= h' < h -> 2 ^ h' < leaves)%nat ->
  let r := getTreeHeight_loop fuel h leaves in
  (1 <= r)%nat /\ (leaves <= 2 ^ r)%nat
  /\ (forall h', 1 <= h' < r -> 2 ^ h' < leaves)%nat.
Proof.
  revert h. induction fuel as [|fuel IH]; intros h H1 Hfuel Hbelow; simpl.
  - split; [exact H1|]. split; [|exact Hbelow].
    pose proof (pow2_gt h). lia.
  - destruct (2 ^ h <? leaves)%nat eqn:E.
    + apply Nat.ltb_lt in E. apply IH; [lia|lia|].
      intros h' Hh'. destruct (Nat.eq_dec h' h) as [->|Hne]; [exact E|].
      apply Hbelow. lia.
    + apply Nat.ltb_ge in E. split; [exact H1|]. split; [exact E|exact Hbelow].
Qed.

Lemma getTreeHeight_spec (leaves : nat) :
  (1 <= getTreeHeight leaves)%nat
  /\ (leaves <= 2 ^ getTreeHeight leaves)%nat
  /\ (forall h', 1 <= h' < getTreeHeight leaves -> 2 ^ h' < leaves)%nat.
Proof.
  unfold getTreeHeight. apply getTreeHeight_loop_spec; [lia|lia|].
  intros h' Hh'. lia.
Qed.

(** *** The root loop computes the tree *)

Lemma levelLoop_step (n j : nat) (hashes : list Z) :
  levelLoop (S n) j hashes
  = levelLoop n (S j)
      (<[j := node (default 0 (hashes !! (j * 2)%nat))
                   (default 0 (hashes !! (j * 2 + 1)%nat))]> hashes).
Proof.
  simpl. unfold node.
  destruct ((default 0 (hashes !! (j * 2)%nat) =? 0)
            && (default 0 (hashes !! (j * 2 + 1)%nat) =? 0)); reflexivity.
Qed.

Lemma length_levelLoop (n j : nat) (hashes : list Z) :
  length (levelLoop n j hashes) = length hashes.
Proof.
  revert j hashes. induction n as [|n IH]; intros j hashes; [reflexivity|].
  rewrite levelLoop_step, IH. apply length_insert.
Qed.

Lemma levelLoop_lookup (n j k : nat) (hashes : list Z) :
  levelLoop n j hashes !! k
  = if decide (j <= k < j + n /\ k < length hashes)%nat
    then Some (node (default 0 (hashes !! (k * 2)%nat))
                    (default 0 (hashes !! (k * 2 + 1)%nat)))
    else hashes !! k.
Proof.
  revert j hashes. induction n as [|n IH]; intros j hashes.
  - simpl. case_decide; [lia|reflexivity].
  - rewrite levelLoop_step, IH, length_insert.
    destruct (decide (k = j)) as [->|Hne].
    + destruct (decide (j < length hashes)%nat) as [Hlt|Hge].
      * rewrite list_lookup_insert_eq by lia.
        do 2 case_decide; try lia; reflexivity.
      * rewrite list_insert_ge by lia.
        do 2 case_decide; try lia; reflexivity.
    + do 2 case_decide; try lia;
        rewrite !list_lookup_insert_ne by lia; reflexivity.
Qed.

Lemma length_pairUp (ws : list Z) : length (pairUp ws) = (length ws / 2)%nat.
Proof.
  induction ws as [ws IH] using (well_founded_induction
    (Wf_nat.well_founded_ltof _ (@length Z))).
  destruct ws as [|l [|r rest]]; [reflexivity|reflexivity|].
  simpl pairUp. simpl length. rewrite IH by (unfold Wf_nat.ltof; simpl; lia).
  change (S (S (length rest))) with (2 + length rest)%nat.
  replace (2 + length rest)%nat with (length rest + 1 * 2)%nat by lia.
  rewrite Nat.div_add by lia. lia.
Qed.

Lemma pairUp_lookup (ws : list Z) (k : nat) :
  pairUp ws !! k
  = if decide (k * 2 + 1 < length ws)%nat
    then Some (node (default 0 (ws !! (k * 2)%nat))
                    (default 0 (ws !! (k * 2 + 1)%nat)))
    else None.
Proof.
  revert k. induction ws as [ws IH] using (well_founded_induction
    (Wf_nat.well_founded_ltof _ (@length Z))). intros k.
  destruct ws as [|l [|r rest]].
  - cbn [pairUp]. rewrite lookup_nil. case_decide as H; [|reflexivity].
    cbn [length] in H. lia.
  - cbn [pairUp]. rewrite lookup_nil. case_decide as H; [|reflexivity].
    cbn [length] in H. lia.
  - destruct k as [|k].
    + cbn [pairUp length]. case_decide as H; [reflexivity|]. lia.
    + simpl pairUp. rewrite lookup_cons_ne_0 by lia. simpl Nat.pred.
      rewrite IH by (unfold Wf_nat.ltof; simpl; lia).
      replace (S k * 2)%nat with (S (S (k * 2))) by lia.
      replace (S (S (k * 2)) + 1)%nat with (S (S (k * 2 + 1))) by lia.
      simpl length. simpl lookup.
      case_decide; case_decide; try lia; reflexivity.
Qed.

Lemma levelLoop_pairUp (i : nat) (hashes : list Z) :
  (2 ^ S i <= length hashes)%nat ->
  firstn (2 ^ i) (levelLoop (2 ^ i) 0 hashes) = pairUp (firstn (2 ^ S i) hashes).
Proof.
  intros Hlen. apply list_eq. intros k.
  assert (Hpow : (2 ^ S i = 2 ^ i * 2)%nat) by (simpl; lia).
  rewrite pairUp_lookup, length_firstn, Nat.min_l by lia.
  destruct (decide (k < 2 ^ i)%nat) as [Hk|Hk].
  - rewrite lookup_take_lt by lia. rewrite levelLoop_lookup.
    rewrite !lookup_take_lt by lia.
    case_decide; case_decide; try lia; reflexivity.
  - rewrite lookup_take_ge by lia. case_decide; [lia|reflexivity].
Qed.

Lemma rootLoop_merkleRoot (i : nat) (hashes : list Z) :
  (2 ^ i <= length hashes)%nat ->
  default 0 (rootLoop i hashes !! 0%nat) = merkleRoot i (firstn (2 ^ i) hashes).
Proof.
  revert hashes. induction i as [|i IH]; intros hashes Hlen.
  - simpl. destruct hashes; reflexivity.
  - cbn [rootLoop merkleRoot]. rewrite IH by (rewrite length_levelLoop; simpl in Hlen; lia).
    rewrite levelLoop_pairUp by exact Hlen. reflexivity.
Qed.

(** *** The first loop fills the leaf slots *)

Lemma hashAndCheckEscrow_slots (ts : list Transaction) (i : nat) (hashes hs : list Z) :
  (i + length ts <= length hashes)%nat ->
  hashAndCheckEscrow i ts hashes = Ok hs ->
  hs = take i hashes ++ map hashTransaction ts ++ drop (i + length ts) hashes.
Proof.
  revert i hashes. induction ts as [|t ts IH]; intros i hashes Hlen Hrun.
  - simpl in *. injection Hrun as <-. rewrite Nat.add_0_r, take_drop. reflexivity.
  - simpl in Hlen. cbn [hashAndCheckEscrow] in Hrun.
    assert (Hnext : hashAndCheckEscrow (S i) ts (<[i:=hashTransaction t]> hashes) = Ok hs).
    { destruct (transactionType t =? 0); [|exact Hrun].
      destruct (escrowWord _ =? 0); [discriminate|exact Hrun]. }
    apply IH in Hnext; [|rewrite length_insert; lia].
    rewrite Hnext.
    rewrite take_insert_lt by lia.
    rewrite drop_insert_lt by lia.
    rewrite (take_S_r hashes i (default 0 (hashes !! i))).
    2:{ destruct (lookup_lt_is_Some_2 hashes i) as [x Hx]; [lia|]. rewrite Hx. reflexivity. }
    rewrite insert_app_r_alt by (rewrite length_take; lia).
    rewrite length_take, Nat.min_l, Nat.sub_diag by lia. simpl.
    rewrite <- app_assoc. simpl.
    replace (S (i + length ts)) with (i + S (length ts))%nat by lia. reflexivity.
Qed.

Lemma hashAndCheckEscrow_leafSlots (t : list Transaction) (hs : list Z) :
  hashAndCheckEscrow 0 t (freshHashes (length t)) = Ok hs -> hs = leafSlots t.
Proof.
  intros Hrun. pose proof (getTreeHeight_spec (length t)) as (_ & Hfit & _).
  apply hashAndCheckEscrow_slots in Hrun.
  2:{ unfold freshHashes. rewrite length_replicate. lia. }
  rewrite Hrun. unfold leafSlots, freshHashes. simpl.
  rewrite drop_replicate. reflexivity.
Qed.

Lemma length_leafSlots (t : list Transaction) :
  length (leafSlots t) = (2 ^ getTreeHeight (length t))%nat.
Proof.
  pose proof (getTreeHeight_spec (length t)) as (_ & Hfit & _).
  unfold leafSlots. rewrite length_app, length_map, length_replicate. lia.
Qed.

Lemma hashAndCheckEscrow_runs (ts : list Transaction) (i : nat) (hashes : list Z) :
  (i + length ts <= length hashes)%nat ->
  is_ok (hashAndCheckEscrow i ts hashes) = escrowChecksPass ts.
Proof.
  revert i hashes. induction ts as [|t ts IH]; intros i hashes Hlen; [reflexivity|].
  simpl in Hlen. cbn [hashAndCheckEscrow escrowChecksPass forallb].
  rewrite list_lookup_insert_eq by lia. simpl (default _ _).
  fold (escrowChecksPass ts).
  destruct (transactionType t =? 0); cbn [negb orb andb].
  - destruct (escrowWord (hashTransaction t) =? 0); cbn [negb andb is_ok];
      [reflexivity|].
    apply IH. rewrite length_insert. lia.
  - apply IH. rewrite length_insert. lia.
Qed.

(** *** What an accepted call went through *)

Lemma proposeBlockAssembly_ok (b : Block) (t : list Transaction) (h : Z) :
  proposeBlockAssembly b t = Ok h ->
  escrowChecksPass t = true
  /\ transactionHashesRoot b = merkleRoot (getTreeHeight (length t)) (leafSlots t)
  /\ h = hashBlock b.
Proof.
  unfold proposeBlockAssembly. intros Hrun.
  pose proof (getTreeHeight_spec (length t)) as (_ & Hfit & _).
  pose proof (hashAndCheckEscrow_runs t 0 (freshHashes (length t))) as Hpass.
  destruct (hashAndCheckEscrow 0 t (freshHashes (length t))) as [hs|m] eqn:E;
    [|discriminate].
  cbn [bind] in Hrun.
  split.
  { rewrite <- Hpass; [reflexivity|]. unfold freshHashes. rewrite length_replicate. lia. }
  apply hashAndCheckEscrow_leafSlots in E. subst hs.
  rewrite rootLoop_merkleRoot in Hrun by (rewrite length_leafSlots; lia).
  rewrite <- length_leafSlots, firstn_all in Hrun.
  destruct (negb _) eqn:Eroot in Hrun; [discriminate|].
  injection Hrun as <-. apply negb_false_iff, Z.eqb_eq in Eroot.
  split; [exact Eroot|reflexivity].
Qed.

Lemma proposeBlockAssembly_complete (b : Block) (t : list Transaction) :
  escrowChecksPass t = true ->
  transactionHashesRoot b = merkleRoot (getTreeHeight (length t)) (leafSlots t) ->
  proposeBlockAssembly b t = Ok (hashBlock b).
Proof.
  intros Hpass Hroot. unfold proposeBlockAssembly.
  pose proof (getTreeHeight_spec (length t)) as (_ & Hfit & _).
  pose proof (hashAndCheckEscrow_runs t 0 (freshHashes (length t))) as Hrun.
  rewrite Hpass in Hrun.
  destruct (hashAndCheckEscrow 0 t (freshHashes (length t))) as [hs|m] eqn:E.
  2:{ simpl in Hrun. discriminate Hrun. unfold freshHashes.
      rewrite length_replicate. lia. }
  cbn [bind]. apply hashAndCheckEscrow_leafSlots in E. subst hs.
  rewrite rootLoop_merkleRoot by (rewrite length_leafSlots; lia).
  rewrite <- length_leafSlots, firstn_all.
  change (default 0 (firstn BLOCK_STRUCTURE_SLOTS (blockSlotsOf b)
                       !! (BLOCK_STRUCTURE_SLOTS - 1)%nat))
    with (transactionHashesRoot b).
  rewrite Hroot, Z.eqb_refl. reflexivity.
Qed.

Lemma lastEntry_lookup (hs : list BlockData) :
  hs <> [] ->
  last hs = Some (default (mkBlockData 0 0) (hs !! (length hs - 1)%nat)).
Proof.
  intros Hne. rewrite last_lookup.
  replace (Nat.pred (length hs)) with (length hs - 1)%nat by lia.
  destruct (lookup_lt_is_Some_2 hs (length hs - 1)) as [x Hx].
  { destruct hs; [congruence|simpl; lia]. }
  rewrite Hx. reflexivity.
Qed.

Lemma proposeBlock_ok (c : Call) (b : Block) (t : list Transaction) (s s' : Storage) :
  proposeBlock c b t s = Ok s' ->
  Guards c b t s
  /\ blockHashes s' = blockHashes s ++ [mkBlockData (hashBlock b) (block_timestamp c)].
Proof.
  unfold proposeBlock, require. intros Hrun.
  destruct (msg_sender c =? thisAddress (currentProposer s)) eqn:E1; [|discriminate].
  destruct (negb (paused s)) eqn:E2; [|discriminate].
  destruct (blockNumberL2 b =? Z.of_nat (length (blockHashes s))) eqn:E3; [|discriminate].
  cbn [bind] in Hrun.
  assert (E4 : length (blockHashes s) <> 0%nat ->
               Some (previousBlockHash b) = blockHash <$> last (blockHashes s)).
  { intros Hne. destruct (length (blockHashes s) =? 0)%nat eqn:E0.
    - apply Nat.eqb_eq in E0. contradiction.
    - cbn [negb] in Hrun.
      destruct (previousBlockHash b =? _) eqn:E4 in Hrun; [|discriminate].
      apply Z.eqb_eq in E4. rewrite lastEntry_lookup.
      + simpl. rewrite E4. reflexivity.
      + intros Hnil. rewrite Hnil in Hne. contradiction. }
  assert (Hrest : bind (require (BLOCK_STAKE <=? msg_value c) "The stake payment is incorrect")
            (fun _ => bind (require (proposer b =? msg_sender c)
                              "The proposer address is not the sender")
            (fun _ => bind (require (length t <=? TRANSACTIONS_PER_BLOCK)%nat
                              "The block has too many transactions")
            (fun _ => bind (feePayments t 0 0)
            (fun fees => bind (proposeBlockAssembly b t)
            (fun blockHash => Ok (mkStorage
               (blockHashes s ++ [mkBlockData blockHash (block_timestamp c)])
               (proposers s)
               (<[feeBookKey (proposer b) (blockNumberL2 b) := fees]> (feeBook s))
               (currentProposer s) (proposerStartBlock s)
               (proposersAddress s) (challengesAddress s) (shieldAddress s)
               (paused s) (events s ++ [BlockProposed]))))))) = Ok s').
  { destruct (negb (length (blockHashes s) =? 0)%nat).
    - destruct (previousBlockHash b =? _) in Hrun; [exact Hrun|discriminate].
    - exact Hrun. }
  clear Hrun. unfold require in Hrest.
  destruct (BLOCK_STAKE <=? msg_value c) eqn:E5; [|discriminate].
  destruct (proposer b =? msg_sender c) eqn:E6; [|discriminate].
  destruct (length t <=? TRANSACTIONS_PER_BLOCK)%nat eqn:E7; [|discriminate].
  cbn [bind] in Hrest.
  destruct (feePayments t 0 0) as [fees|m] eqn:E8; [|discriminate].
  cbn [bind] in Hrest.
  destruct (proposeBlockAssembly b t) as [h|m] eqn:E9; [|discriminate].
  cbn [bind] in Hrest. injection Hrest as <-.
  apply proposeBlockAssembly_ok in E9 as (Hesc & Hroot & ->).
  split; [|reflexivity].
  constructor; try assumption.
  - apply Z.eqb_eq, E1.
  - apply negb_true_iff, E2.
  - apply Z.eqb_eq, E3.
  - apply Z.leb_le, E5.
  - apply Z.eqb_eq, E6.
  - apply Nat.leb_le, E7.
  - rewrite E8. reflexivity.
Qed.

Lemma proposeBlock_complete (c : Call) (b : Block) (t : list Transaction) (s : Storage) :
  Guards c b t s ->
  exists s', proposeBlock c b t s = Ok s'.
Proof.
  intros [G1 G2 G3 G4 G5 G6 G7 G8 G9 G10]. unfold proposeBlock, require.
  rewrite (proj2 (Z.eqb_eq _ _) G1), G2, (proj2 (Z.eqb_eq _ _) G3).
  cbn [negb bind].
  assert (Hprev : (if negb (length (blockHashes s) =? 0)%nat
                   then if previousBlockHash b
                           =? blockHash (default (mkBlockData 0 0)
                                (blockHashes s !! (length (blockHashes s) - 1)%nat))
                        then Ok tt
                        else Revert "The block is flawed or out of order"
                   else Ok tt) = Ok tt).
  { destruct (length (blockHashes s) =? 0)%nat eqn:E0; [reflexivity|].
    apply Nat.eqb_neq in E0. cbn [negb]. specialize (G4 E0).
    rewrite lastEntry_lookup in G4 by (intros Hnil; rewrite Hnil in E0; contradiction).
    simpl in G4. injection G4 as ->. rewrite Z.eqb_refl. reflexivity. }
  rewrite Hprev. cbn [bind].
  rewrite (proj2 (Z.leb_le _ _) G5), (proj2 (Z.eqb_eq _ _) G6),
    (proj2 (Nat.leb_le _ _) G7).
  cbn [bind].
  destruct (feePayments t 0 0) as [fees|m]; [|discriminate].
  cbn [bind]. rewrite (proposeBlockAssembly_complete b t G9 G10).
  cbn [bind]. eexists. reflexivity.
Qed.

(** The guards are evaluated in order: a block that passes the first five
    and names a proposer other than the sender is refused at the sixth,
    whatever its transactions are. *)
Lemma proposeBlock_other_proposer (c : Call) (b : Block) (t : list Transaction) (s : Storage) :
  msg_sender c = thisAddress (currentProposer s) ->
  paused s = false ->
  blockNumberL2 b = Z.of_nat (length (blockHashes s)) ->
  (length (blockHashes s) <> 0%nat ->
   Some (previousBlockHash b) = blockHash <$> last (blockHashes s)) ->
  BLOCK_STAKE <= msg_value c ->
  proposer b <> msg_sender c ->
  proposeBlock c b t s = Revert "The proposer address is not the sender".
Proof.
  intros G1 G2 G3 G4 G5 G6. unfold proposeBlock, require.
  rewrite (proj2 (Z.eqb_eq _ _) G1), G2, (proj2 (Z.eqb_eq _ _) G3).
  cbn [negb bind].
  assert (Hprev : (if negb (length (blockHashes s) =? 0)%nat
                   then if previousBlockHash b
                           =? blockHash (default (mkBlockData 0 0)
                                (blockHashes s !! (length (blockHashes s) - 1)%nat))
                        then Ok tt
                        else Revert "The block is flawed or out of order"
                   else Ok tt) = Ok tt).
  { destruct (length (blockHashes s) =? 0)%nat eqn:E0; [reflexivity|].
    apply Nat.eqb_neq in E0. cbn [negb]. specialize (G4 E0).
    rewrite lastEntry_lookup in G4 by (intros Hnil; rewrite Hnil in E0; contradiction).
    simpl in G4. injection G4 as ->. rewrite Z.eqb_refl. reflexivity. }
  rewrite Hprev. cbn [bind].
  rewrite (proj2 (Z.leb_le _ _) G5), (proj2 (Z.eqb_neq _ _) G6).
  reflexivity.
Qed.

(** *** The hash chain of accepted blocks *)

Lemma chained_nil : chained [] [].
Proof.
  split; [reflexivity|]. split.
  - intros i b H. rewrite lookup_nil in H. discriminate.
  - intros i p b H. rewrite lookup_nil in H. discriminate.
Qed.

Lemma chained_snoc (bs : list Block) (hs : list BlockData) (b : Block) (time : Z) :
  chained bs hs ->
  blockNumberL2 b = Z.of_nat (length hs) ->
  (length hs <> 0%nat -> Some (previousBlockHash b) = blockHash <$> last hs) ->
  chained (bs ++ [b]) (hs ++ [mkBlockData (hashBlock b) time]).
Proof.
  intros (Hlen & Hnum & Hlink) Hb Hprev. split; [|split].
  - rewrite !length_app. simpl. lia.
  - intros i b' Hi. destruct (decide (i < length bs)%nat) as [Hlt|Hge].
    + rewrite lookup_app_l in Hi by lia. rewrite lookup_app_l by lia.
      apply Hnum, Hi.
    + rewrite lookup_app_r in Hi by lia.
      destruct (i - length bs)%nat as [|k] eqn:Ek; [|destruct k; discriminate].
      simpl in Hi. injection Hi as <-.
      assert (i = length hs) as -> by lia.
      split; [exact Hb|].
      rewrite lookup_app_r by lia. rewrite Nat.sub_diag. reflexivity.
  - intros i p b' Hp Hb'.
    destruct (decide (S i < length bs)%nat) as [Hlt|Hge].
    + rewrite lookup_app_l in Hp by lia. rewrite lookup_app_l in Hb' by lia.
      eapply Hlink; eassumption.
    + rewrite lookup_app_r in Hb' by lia.
      destruct (S i - length bs)%nat as [|k] eqn:Ek; [|destruct k; discriminate].
      simpl in Hb'. injection Hb' as <-.
      assert (Hi : S i = length bs) by lia.
      rewrite lookup_app_l in Hp by lia.
      destruct (Hnum i p Hp) as [_ Hhash].
      assert (Hne : length hs <> 0%nat) by lia.
      specialize (Hprev Hne). rewrite last_lookup in Hprev.
      replace (Nat.pred (length hs)) with i in Hprev by lia.
      rewrite Hhash in Hprev. injection Hprev as ->. reflexivity.
Qed.

(** C1, as the code has it: [proposeBlock] reverts when the block number
    differs from the number of stored L2 blocks, when blocks are stored and
    the previous block hash differs from the last stored hash, when there
    are more than [TRANSACTIONS_PER_BLOCK] transactions, or when the stake
    paid is below [BLOCK_STAKE]. The call is accepted when all of its guards
    pass (these four, and also: the sender is the current proposer, the
    contract is not paused, the block's proposer is the sender, the fee sums
    do not overflow, the escrow loop passes and the transactions root
    matches); an accepted call appends exactly one block-hash entry, so the
    stored entries stay a chain numbered without gaps in which every block
    names the hash of the one before. *)
Theorem proposeBlock_sequential (c : Call) (b : Block) (t : list Transaction) (s : Storage) :
  (blockNumberL2 b <> Z.of_nat (length (blockHashes s))
   \/ (length (blockHashes s) <> 0%nat
       /\ Some (previousBlockHash b) <> blockHash <$> last (blockHashes s))
   \/ (TRANSACTIONS_PER_BLOCK < length t)%nat
   \/ msg_value c < BLOCK_STAKE ->
   reverts (proposeBlock c b t s))
  /\ (Guards c b t s -> exists s', proposeBlock c b t s = Ok s')
  /\ (forall s', proposeBlock c b t s = Ok s' ->
        blockHashes s' = blockHashes s ++ [mkBlockData (hashBlock b) (block_timestamp c)]
        /\ length (blockHashes s') = S (length (blockHashes s))
        /\ forall bs, chained bs (blockHashes s) ->
                      chained (bs ++ [b]) (blockHashes s')).
Proof.
  split; [|split].
  - intros Hbad. destruct (proposeBlock c b t s) as [s'|m] eqn:E; [|eexists; reflexivity].
    exfalso. apply proposeBlock_ok in E as [G _]. destruct G.
    destruct Hbad as [H|[[H1 H2]|[H|H]]]; auto; lia.
  - apply proposeBlock_complete.
  - intros s' E. apply proposeBlock_ok in E as [G Heq]. split; [exact Heq|].
    split; [rewrite Heq, length_app; simpl; lia|].
    intros bs Hchain. rewrite Heq. destruct G.
    apply chained_snoc; assumption.
Qed.

(** C3: on every accepted block the root recomputed from the submitted
    transactions by the root loop equals the block's
    [transactionHashesRoot] (a call with another root reverts), and the
    stored hash is the digest of the block's own slots, the last of which
    is that root; the transactions do not enter it otherwise. *)
Theorem proposeBlock_root_and_hash (c : Call) (b : Block) (t : list Transaction) (s : Storage) :
  (transactionHashesRoot b
   <> default 0 (rootLoop (getTreeHeight (length t)) (leafSlots t) !! 0%nat) ->
   reverts (proposeBlock c b t s))
  /\ (forall s', proposeBlock c b t s = Ok s' ->
        transactionHashesRoot b
        = default 0 (rootLoop (getTreeHeight (length t)) (leafSlots t) !! 0%nat)
        /\ last (blockHashes s')
           = Some (mkBlockData
                     (keccak_slots [leafCount b; proposer b; root b; blockNumberL2 b;
                                    previousBlockHash b; frontierHash b;
                                    transactionHashesRoot b])
                     (block_timestamp c))).
Proof.
  assert (Hroot : default 0 (rootLoop (getTreeHeight (length t)) (leafSlots t) !! 0%nat)
                  = merkleRoot (getTreeHeight (length t)) (leafSlots t)).
  { rewrite rootLoop_merkleRoot by (rewrite length_leafSlots; lia).
    rewrite <- length_leafSlots, firstn_all. reflexivity. }
  rewrite Hroot. split.
  - intros Hne. destruct (proposeBlock c b t s) as [s'|m] eqn:E; [|eexists; reflexivity].
    exfalso. apply proposeBlock_ok in E as [G _]. destruct G. contradiction.
  - intros s' E. apply proposeBlock_ok in E as [G Heq]. destruct G.
    split; [assumption|]. rewrite Heq, last_snoc. reflexivity.
Qed.


(** *** The escrow query *)

(** When the account the query is sent to returns no data, the word read
    back at [x] is what was stored there for the call: the signature
    followed by the first 28 bytes of the transaction hash. *)
Lemma escrowWord_no_returndata (txHash : Z) :
  call_returndata shieldAddress_slot (firstn 36 (escrowScratch txHash)) = [] ->
  escrowWord txHash = be_value (firstn 32 (escrowScratch txHash)).
Proof.
  intros Hret. unfold escrowWord. rewrite Hret. reflexivity.
Qed.

Lemma length_checkTxEscrowedSignature : length checkTxEscrowedSignature = 4%nat.
Proof.
  unfold checkTxEscrowedSignature, word_bytes.
  rewrite length_take, length_be_bytes. reflexivity.
Qed.

Lemma escrowScratch_prefix (txHash : Z) :
  firstn 32 (escrowScratch txHash)
  = checkTxEscrowedSignature ++ firstn 28 (word_bytes txHash).
Proof.
  pose proof length_checkTxEscrowedSignature as Hsig.
  pose proof (length_be_bytes 32 txHash) as Hlen.
  unfold escrowScratch, mstore_bytes.
  destruct checkTxEscrowedSignature as [|s0 [|s1 [|s2 [|s3 [|s4 sig]]]]];
    try discriminate Hsig.
  unfold word_bytes in *.
  remember (be_bytes 32 txHash) as w eqn:Hw. clear Hw.
  do 29 (destruct w as [|? w]; [discriminate Hlen|]).
  reflexivity.
Qed.

Lemma be_value_pos (xs ys : list Z) :
  Forall (fun b => 0 <= b) xs -> Forall (fun b => 0 <= b) ys ->
  0 < be_value xs -> 0 < be_value (xs ++ ys).
Proof.
  intros Hxs Hys Hpos. rewrite be_value_app.
  pose proof (be_value_nonneg ys Hys).
  assert (0 < 256 ^ Z.of_nat (length ys)) by (apply Z.pow_pos_nonneg; lia).
  nia.
Qed.

(** The word is then non-zero whatever the transaction hash is, as soon as
    the signature is not the zero selector. *)
Lemma escrowWord_without_code (txHash : Z) :
  call_returndata shieldAddress_slot (firstn 36 (escrowScratch txHash)) = [] ->
  0 < be_value checkTxEscrowedSignature ->
  escrowWord txHash <> 0.
Proof.
  intros Hret Hsig. rewrite escrowWord_no_returndata by exact Hret.
  rewrite escrowScratch_prefix.
  assert (Hnn : forall n w, Forall (fun b => 0 <= b) (be_bytes n w)).
  { intros n w. eapply Forall_impl; [apply be_bytes_range|]. simpl. intros; lia. }
  enough (0 < be_value (checkTxEscrowedSignature ++ firstn 28 (word_bytes txHash))) by lia.
  apply be_value_pos; [| |exact Hsig].
  - unfold checkTxEscrowedSignature. apply Forall_take, Hnn.
  - apply Forall_take, Hnn.
Qed.

(** So the escrow loop lets every list of transactions through when the
    called account has no code. *)
Lemma escrowChecksPass_without_code (t : list Transaction) :
  (forall txHash,
     call_returndata shieldAddress_slot (firstn 36 (escrowScratch txHash)) = []) ->
  0 < be_value checkTxEscrowedSignature ->
  escrowChecksPass t = true.
Proof.
  intros Hret Hsig. unfold escrowChecksPass. apply forallb_forall. intros tx _.
  apply orb_true_iff. right. apply negb_true_iff, Z.eqb_neq.
  apply escrowWord_without_code; [apply Hret | exact Hsig].
Qed.

End Contract.

(** *** Removing a proposer *)

(** An address is a registered proposer when its record is stored under
    its own, non-zero address. *)
Definition isProposer (m : gmap Z LinkedAddress) (a : Z) : Prop :=
  a <> 0 /\ thisAddress (proposerAt m a) = a.

(** Some registered proposer is the current one. *)
Definition currentIsProposer (s : Storage) : Prop :=
  isProposer (proposers s) (thisAddress (currentProposer s)).

Ltac map_lookups :=
  repeat (rewrite ?lookup_insert_eq, ?lookup_delete_eq;
          rewrite ?lookup_insert_ne, ?lookup_delete_ne by congruence; cbn).


(** *** A concrete chain *)

(** A stand-in for keccak256 that computes. *)
Definition toyKeccak (bs : list Z) : Z :=
  fold_left (fun acc b => (acc * 257 + b + 1) mod WORD_MODULUS) bs 1.

Definition SHIELD : Z := 1000.

(** The shield contract answers every escrow query with zero (nothing is
    escrowed); no other account has code. *)
Definition toyWorld (addr : Z) (calldata : list Z) : list Z :=
  if addr =? SHIELD then word_bytes 0 else [].

(** The slot of [shieldAddress] in the toy layout. *)
Definition toySlot : Z := 163.

Definition aliceRecord : LinkedAddress := mkLinkedAddress 7 7 7 "http://alice".

Definition transferTx : Transaction :=
  mkTransaction 0 1 1 0 [3; 0; 0; 0] 0 0 0 [11; 12; 0] [21; 0; 0; 0] [0; 0] [1; 2; 3; 4].

Definition depositTx : Transaction :=
  mkTransaction 50 2 0 0 [0; 0; 0; 0] 0 99 0 [13; 0; 0] [0; 0; 0; 0] [0; 0] [5; 6; 7; 8].

Definition block0 : Block := mkBlock 0 7 0 0 0 0 0.

Definition storage1 : Storage :=
  mkStorage [mkBlockData (hashBlock toyKeccak block0) 100]
    {[ 7 := aliceRecord ]} (∅ : gmap Z (Z * Z)) aliceRecord 0 2000 3000 SHIELD false [].

Definition block1 : Block :=
  mkBlock 0 7 77 1 (hashBlock toyKeccak block0) 88
    (merkleRoot toyKeccak (getTreeHeight 2) (leafSlots toyKeccak [transferTx; depositTx])).

Definition call1 : Call := mkCall 7 10 200 5.

(** The same block, naming another proposer than the sender. *)
Definition block1' : Block :=
  mkBlock 0 8 77 1 (hashBlock toyKeccak block0) 88 (transactionHashesRoot block1).

Lemma guards_block1 :
  Guards toyKeccak 10 2 toyWorld toySlot call1 block1 [transferTx; depositTx] storage1.
Proof.
  constructor.
  - reflexivity.
  - reflexivity.
  - reflexivity.
  - intros _.
    cbv [block1 storage1 previousBlockHash blockHashes last fmap option_fmap option_map
         blockHash].
    reflexivity.
  - simpl. lia.
  - reflexivity.
  - simpl. lia.
  - vm_compute. reflexivity.
  - apply escrowChecksPass_without_code.
    + intros txHash. reflexivity.
    + vm_compute. reflexivity.
  - cbv [block1 transactionHashesRoot length]. reflexivity.
Defined.

Lemma proposeBlock_sequential_witness :
  exists s',
    proposeBlock toyKeccak 10 2 toyWorld toySlot call1 block1 [transferTx; depositTx] storage1
    = Ok s'
    /\ length (blockHashes s') = 2%nat
    /\ chained toyKeccak [block0; block1] (blockHashes s').
Proof.
  destruct (proposeBlock_sequential toyKeccak 10 2 toyWorld toySlot
              call1 block1 [transferTx; depositTx] storage1) as (_ & Hrun & Hok).
  destruct (Hrun guards_block1) as [s' E].
  exists s'. split; [exact E|].
  destruct (Hok s' E) as (_ & Hlen & Hchain). split; [exact Hlen|].
  apply (Hchain [block0]).
  apply (chained_snoc toyKeccak [] [] block0 100 (chained_nil toyKeccak)).
  - reflexivity.
  - intros H. exfalso. apply H. reflexivity.
Defined.

(** The four checks C1 lists pass, and the call still reverts with nothing
    appended: the block names a proposer other than the sender. *)
Lemma proposeBlock_listed_checks_not_enough :
  blockNumberL2 block1' = Z.of_nat (length (blockHashes storage1))
  /\ Some (previousBlockHash block1') = blockHash <$> last (blockHashes storage1)
  /\ (length [transferTx; depositTx] <= 2)%nat
  /\ 10 <= msg_value call1
  /\ proposeBlock toyKeccak 10 2 toyWorld toySlot call1 block1' [transferTx; depositTx] storage1
     = Revert "The proposer address is not the sender".
Proof.
  assert (Hprev : Some (previousBlockHash block1')
                  = blockHash <$> last (blockHashes storage1)).
  { cbv [block1' storage1 previousBlockHash blockHashes last fmap option_fmap option_map
         blockHash].
    reflexivity. }
  split; [reflexivity|]. split; [exact Hprev|].
  split; [simpl; lia|]. split; [simpl; lia|].
  apply proposeBlock_other_proposer.
  - reflexivity.
  - reflexivity.
  - reflexivity.
  - intros _. exact Hprev.
  - simpl. lia.
  - change (proposer block1') with 8. change (msg_sender call1) with 7. lia.
Qed.

Lemma proposeBlock_root_and_hash_witness :
  exists s',
    proposeBlock toyKeccak 10 2 toyWorld toySlot call1 block1 [transferTx; depositTx] storage1
    = Ok s'
    /\ blockHash <$> last (blockHashes s') = Some (hashBlock toyKeccak block1).
Proof.
  destruct (proposeBlock_complete toyKeccak 10 2 toyWorld toySlot
              call1 block1 [transferTx; depositTx] storage1 guards_block1) as [s' E].
  exists s'. split; [exact E|].
  destruct (proposeBlock_root_and_hash toyKeccak 10 2 toyWorld toySlot
              call1 block1 [transferTx; depositTx] storage1) as [_ Hok].
  destruct (Hok s' E) as [_ Hlast]. rewrite Hlast.
  unfold hashBlock. cbn [fmap option_fmap option_map blockHash]. reflexivity.
Defined.


(** C6 at a deposit the shield contract does not hold in escrow: the query
    goes to the account numbered like the storage slot, which has no code
    and returns nothing, the word read back is the signature and hash
    written for the call, and the block is accepted. *)
Theorem proposeBlock_accepts_unescrowed_deposit :
  be_value (firstn 32 (toyWorld SHIELD
                         (firstn 36 (escrowScratch toyKeccak
                                       (hashTransaction toyKeccak depositTx))))) = 0
  /\ escrowWord toyKeccak toyWorld toySlot (hashTransaction toyKeccak depositTx) <> 0
  /\ exists s',
       proposeBlock toyKeccak 10 2 toyWorld toySlot call1 block1
         [transferTx; depositTx] storage1 = Ok s'
       /\ length (blockHashes s') = S (length (blockHashes storage1)).
Proof.
  split; [vm_compute; reflexivity|]. split.
  - apply escrowWord_without_code; [reflexivity|]. vm_compute. reflexivity.
  - destruct (proposeBlock_complete toyKeccak 10 2 toyWorld toySlot
                call1 block1 [transferTx; depositTx] storage1 guards_block1) as [s' E].
    exists s'. split; [exact E|].
    apply proposeBlock_ok in E as [_ Heq]. rewrite Heq, length_app. simpl. lia.
Qed.


Definition callProposers : Call := mkCall 2000 0 300 9.


(** Three proposers in a ring 7 -> 8 -> 9 -> 7; 7 is current. *)
Definition storageRing : Storage :=
  mkStorage []
    (<[ 7 := mkLinkedAddress 7 9 8 "a" ]>
       (<[ 8 := mkLinkedAddress 8 7 9 "b" ]>
          {[ 9 := mkLinkedAddress 9 8 7 "c" ]}))
    (∅ : gmap Z (Z * Z)) (mkLinkedAddress 7 9 8 "a") 0 2000 3000 SHIELD false [].


End StateContract.

(** ** common-files/classes/transaction.mjs *)

Module TransactionClass.

(** The JavaScript values that reach the class: [undefined], numbers and
    strings (hex strings among them). *)
Inductive JsValue :=
  | JUndefined
  | JNumber (n : Z)
  | JString (s : string).

#[global] Instance JsValue_eq_dec : EqDecision JsValue.
Proof. solve_decision. Defined.

#[global] Instance JsValue_countable : Countable JsValue.
Proof.
  refine (inj_countable'
    (fun v => match v with
              | JUndefined => inl tt
              | JNumber n => inr (inl n)
              | JString s => inr (inr s)
              end)
    (fun e => match e with
              | inl _ => JUndefined
              | inr (inl n) => JNumber n
              | inr (inr s) => JString s
              end) _).
  intros [| |]; reflexivity.
Defined.

(** [a === b] *)
Definition strictEquals (a b : JsValue) : bool := bool_decide (a = b).

(** Truthiness, as [||], [if] and [?.] read a value. *)
Definition truthy (v : JsValue) : bool :=
  match v with
  | JUndefined => false
  | JNumber n => negb (n =? 0)%Z
  | JString s => negb (String.eqb s "")
  end.

(** [a || b] *)
Definition jsOr (a b : JsValue) : JsValue := if truthy a then a else b.

(** What a function call gives: a value, or a thrown error. *)
Inductive outcome (A : Type) : Type :=
  | Returned (a : A)
  | Thrown (message : string).
Arguments Returned {A} a.
Arguments Thrown {A} message.

Definition andThen {A B} (o : outcome A) (k : A -> outcome B) : outcome B :=
  match o with
  | Returned a => k a
  | Thrown m => Thrown m
  end.

Fixpoint mapOutcome {A B} (f : A -> outcome B) (l : list A) : outcome (list B) :=
  match l with
  | [] => Returned []
  | a :: l' =>
      andThen (f a) (fun b => andThen (mapOutcome f l') (fun bs => Returned (b :: bs)))
  end.

(** [const TOKEN_TYPES = { ERC20: 0, ERC721: 1, ERC1155: 2 }], indexed by a
    value: [undefined] for any other key (the keys an object inherits from
    its prototype are left out). *)
Definition TOKEN_TYPES (key : JsValue) : JsValue :=
  match key with
  | JString "ERC20" => JNumber 0
  | JString "ERC721" => JNumber 1
  | JString "ERC1155" => JNumber 2
  | _ => JUndefined
  end.

(** [arrayEquality]: same length, and every element of [as] is included in
    [bs]. *)
Definition arrayEquality (xs ys : list JsValue) : bool :=
  if (length xs =? length ys)%nat
  then forallb (fun a => existsb (strictEquals a) ys) xs
  else false.

(** Modelled from the spec: [utils.padArray] is in
    common-files/utils/crypto/merkle-tree/utils.mjs, which is not among the
    sources; absent slots are filled with the padding value up to the fixed
    arity. *)
Definition padArray {A} (arr : list A) (padWith : A) (n : nat) : list A :=
  arr ++ replicate (n - length arr) padWith.

(** A member of the transaction tuple: a scalar or an array. *)
Inductive Field :=
  | Scalar (v : JsValue)
  | Array (vs : list JsValue).

(** An object of the Commitment or Nullifier class, of which the
    constructor reads [hash]. *)
Record Hashed := mkHashed { hash : JsValue }.

(** The transaction object: the preimage members, the hash, and the
    members the optimist's handlers add ([mempool] may be missing). *)
Record TransactionObject := mkTransactionObject {
  value : JsValue;
  fee : JsValue;
  transactionType : JsValue;
  tokenType : JsValue;
  historicRootBlockNumberL2 : list JsValue;
  tokenId : JsValue;
  ercAddress : JsValue;
  recipientAddress : JsValue;
  commitments : list JsValue;
  nullifiers : list JsValue;
  compressedSecrets : list JsValue;
  proof : list JsValue;
  transactionHash : JsValue;
  mempool : option bool;
  blockNumber : JsValue;
  transactionHashL1 : JsValue;
  circuitHash : JsValue
}.

Definition setTransactionHash (h : JsValue) (t : TransactionObject) : TransactionObject :=
  mkTransactionObject (value t) (fee t) (transactionType t) (tokenType t)
    (historicRootBlockNumberL2 t) (tokenId t) (ercAddress t) (recipientAddress t)
    (commitments t) (nullifiers t) (compressedSecrets t) (proof t)
    h (mempool t) (blockNumber t) (transactionHashL1 t) (circuitHash t).

Section Class.

(** The proof object a worker computes, and [Proof.flatProof]. *)
Variable ProofObject : Type.
Variable flatProof : ProofObject -> outcome (list JsValue).

(** [compressProof] of utils/curve-maths/curves.mjs. *)
Variable compressProof : list JsValue -> outcome (list JsValue).

(** [generalise(v).hex(32)]: the 32-byte hex string of a value. *)
Variable hex32 : JsValue -> outcome string.

(** [web3.eth.abi.encodeParameters([SIGNATURES.TRANSACTION], [transaction])]
    and [web3.utils.soliditySha3({ t: 'bytes', v })]. *)
Variable encodeParameters : list Field -> outcome (list Z).
Variable soliditySha3 : list Z -> string.

(** The tuple [keccak] encodes, in its order. *)
Definition transactionTuple (preimage : TransactionObject) (proof' : list JsValue)
  : list Field :=
  [Scalar (value preimage);
   Scalar (fee preimage);
   Scalar (transactionType preimage);
   Scalar (tokenType preimage);
   Array (historicRootBlockNumberL2 preimage);
   Scalar (tokenId preimage);
   Scalar (ercAddress preimage);
   Scalar (recipientAddress preimage);
   Array (commitments preimage);
   Array (nullifiers preimage);
   Array (compressedSecrets preimage);
   Array proof'].

(** [function keccak(preimage)] *)
Definition keccak (preimage : TransactionObject) : outcome string :=
  andThen (if arrayEquality (proof preimage) (replicate 8 (JNumber 0))
           then Returned (replicate 4 (JNumber 0))
           else compressProof (proof preimage)) (fun proof' =>
  andThen (encodeParameters (transactionTuple preimage proof')) (fun encodedTransaction =>
  Returned (soliditySha3 encodedTransaction))).

(** The argument object of the constructor. *)
Record ConstructorArguments := mkArguments {
  a_fee : JsValue;
  a_historicRootBlockNumberL2 : list JsValue;
  a_transactionType : JsValue;
  a_tokenType : JsValue;
  a_tokenId : JsValue;
  a_value : JsValue;
  a_ercAddress : JsValue;
  a_recipientAddress : JsValue;
  a_commitments : list Hashed;
  a_nullifiers : list Hashed;
  a_compressedSecrets : option (list JsValue);
  a_proof : option ProofObject;
  a_numberNullifiers : nat;
  a_numberCommitments : nat
}.

Definition hexAll (vs : list JsValue) : outcome (list JsValue) :=
  mapOutcome (fun v => andThen (hex32 v) (fun s => Returned (JString s))) vs.

Definition hexOf (v : JsValue) : outcome JsValue :=
  andThen (hex32 v) (fun s => Returned (JString s)).

(** [constructor({...})] *)
Definition construct (a : ConstructorArguments) : outcome TransactionObject :=
  andThen (match a_proof a with
           | None => Returned (replicate 8 (JNumber 0))
           | Some p => flatProof p
           end) (fun flatProof =>
  let commitments := padArray (a_commitments a) (mkHashed (JNumber 0)) (a_numberCommitments a) in
  let nullifiers := padArray (a_nullifiers a) (mkHashed (JNumber 0)) (a_numberNullifiers a) in
  let historicRootBlockNumberL2 :=
    padArray (a_historicRootBlockNumberL2 a) (JNumber 0) (a_numberNullifiers a) in
  let compressedSecrets :=
    match a_compressedSecrets a with
    | None => [JNumber 0; JNumber 0]
    | Some cs => if (length cs =? 0)%nat then [JNumber 0; JNumber 0] else cs
    end in
  if (strictEquals (a_transactionType a) (JNumber 0)
      || strictEquals (a_transactionType a) (JNumber 2))
     && strictEquals (TOKEN_TYPES (a_tokenType a)) JUndefined
  then Thrown "Unrecognized token type"
  else
    andThen (hexOf (jsOr (a_value a) (JNumber 0))) (fun value =>
    andThen (hexOf (jsOr (a_fee a) (JNumber 0))) (fun fee =>
    andThen (hexOf (jsOr (a_transactionType a) (JNumber 0))) (fun transactionType =>
    andThen (hexOf (jsOr (TOKEN_TYPES (a_tokenType a)) (JNumber 0))) (fun tokenType =>
    andThen (hexAll historicRootBlockNumberL2) (fun historicRoot =>
    andThen (hexOf (jsOr (a_tokenId a) (JNumber 0))) (fun tokenId =>
    andThen (hexOf (jsOr (a_ercAddress a) (JNumber 0))) (fun ercAddress =>
    andThen (hexOf (jsOr (a_recipientAddress a) (JNumber 0))) (fun recipientAddress =>
    andThen (hexAll (map hash commitments)) (fun commitments' =>
    andThen (hexAll (map hash nullifiers)) (fun nullifiers' =>
    andThen (hexAll compressedSecrets) (fun compressedSecrets' =>
    andThen (hexAll flatProof) (fun proof' =>
      let preimage :=
        mkTransactionObject value fee transactionType tokenType historicRoot
          tokenId ercAddress recipientAddress commitments' nullifiers'
          compressedSecrets' proof'
          JUndefined None JUndefined JUndefined JUndefined in
      andThen (keccak preimage) (fun h =>
      Returned (setTransactionHash (JString h) preimage))))))))))))))).

(** [static checkHash(transaction)] *)
Definition checkHash (transaction : TransactionObject) : outcome bool :=
  andThen (keccak transaction) (fun transactionHash' =>
  Returned (strictEquals (JString transactionHash') (transactionHash transaction))).

(** [static calcHash(transaction)] *)
Definition calcHash (transaction : TransactionObject) : outcome string :=
  keccak transaction.

(** *** Padding *)


Lemma padArray_lookup_arr {A} (arr : list A) (padWith : A) (n i : nat) :
  i < length arr -> padArray arr padWith n !! i = arr !! i.
Proof. intros H. unfold padArray. apply lookup_app_l, H. Qed.


Lemma mapOutcome_lookup {A B} (f : A -> outcome B) (l : list A) (l' : list B) :
  mapOutcome f l = Returned l' ->
  length l' = length l
  /\ forall i x, l !! i = Some x -> exists y, f x = Returned y /\ l' !! i = Some y.
Proof.
  revert l'. induction l as [|a l IH]; intros l' H; simpl in H.
  - injection H as <-. split; [reflexivity|]. intros i x Hx.
    rewrite lookup_nil in Hx. discriminate.
  - destruct (f a) as [b|] eqn:Ea; [|discriminate]. simpl in H.
    destruct (mapOutcome f l) as [bs|] eqn:El; [|discriminate]. simpl in H.
    injection H as <-. destruct (IH bs eq_refl) as [Hlen Hall].
    split; [simpl; congruence|].
    intros [|i] x Hx; simpl in Hx.
    + injection Hx as <-. exists b. split; [exact Ea|reflexivity].
    + apply Hall, Hx.
Qed.

Lemma hexAll_lookup (vs vs' : list JsValue) :
  hexAll vs = Returned vs' ->
  length vs' = length vs
  /\ forall i v, vs !! i = Some v ->
       exists s, hex32 v = Returned s /\ vs' !! i = Some (JString s).
Proof.
  intros H. apply mapOutcome_lookup in H as [Hlen Hall]. split; [exact Hlen|].
  intros i v Hv. destruct (Hall i v Hv) as (y & Hy & Hi).
  destruct (hex32 v) as [s|] eqn:Es; [|discriminate].
  simpl in Hy. injection Hy as <-. exists s. split; [reflexivity|exact Hi].
Qed.

(** *** The hash reads the preimage members only *)

Lemma keccak_setTransactionHash (h : JsValue) (t : TransactionObject) :
  keccak (setTransactionHash h t) = keccak t.
Proof. reflexivity. Qed.

Lemma keccak_tuple (preimage : TransactionObject) (h : string) :
  keccak preimage = Returned h ->
  exists proof' encoded,
    (if arrayEquality (proof preimage) (replicate 8 (JNumber 0))
     then proof' = replicate 4 (JNumber 0)
     else compressProof (proof preimage) = Returned proof')
    /\ encodeParameters
         [Scalar (value preimage); Scalar (fee preimage);
          Scalar (transactionType preimage); Scalar (tokenType preimage);
          Array (historicRootBlockNumberL2 preimage); Scalar (tokenId preimage);
          Scalar (ercAddress preimage); Scalar (recipientAddress preimage);
          Array (commitments preimage); Array (nullifiers preimage);
          Array (compressedSecrets preimage); Array proof'] = Returned encoded
    /\ h = soliditySha3 encoded.
Proof.
  unfold keccak. intros H.
  destruct (arrayEquality (proof preimage) (replicate 8 (JNumber 0))) eqn:Eq.
  - cbn [andThen] in H.
    destruct (encodeParameters _) as [enc|] eqn:Eenc; [|discriminate].
    cbn [andThen] in H. injection H as <-.
    exists (replicate 4 (JNumber 0)), enc. split; [reflexivity|].
    split; [exact Eenc|reflexivity].
  - destruct (compressProof (proof preimage)) as [p'|] eqn:Ep; [|discriminate].
    cbn [andThen] in H.
    destruct (encodeParameters _) as [enc|] eqn:Eenc; [|discriminate].
    cbn [andThen] in H. injection H as <-.
    exists p', enc. split; [reflexivity|]. split; [exact Eenc|reflexivity].
Qed.

Lemma checkHash_true (t : TransactionObject) :
  checkHash t = Returned true <->
  exists h, keccak t = Returned h /\ transactionHash t = JString h.
Proof.
  unfold checkHash. split.
  - intros H. destruct (keccak t) as [h|] eqn:E; [|discriminate].
    cbn [andThen] in H. injection H as H. unfold strictEquals in H.
    apply bool_decide_eq_true in H. exists h. split; [reflexivity|congruence].
  - intros (h & -> & Hh). cbn [andThen]. rewrite Hh. unfold strictEquals.
    rewrite bool_decide_eq_true_2; reflexivity.
Qed.


Ltac step_outcome H :=
  match type of H with
  | andThen ?o _ = Returned _ =>
      let E := fresh "E" in
      destruct o eqn:E; [cbn [andThen] in H|discriminate H]
  end.

(** What the constructor returns: the padded, hex-converted members and
    their hash. *)
Lemma construct_returned (a : ConstructorArguments) (tx : TransactionObject) :
  construct a = Returned tx ->
  exists preimage h,
    tx = setTransactionHash (JString h) preimage
    /\ keccak preimage = Returned h
    /\ hexAll (map hash (padArray (a_commitments a) (mkHashed (JNumber 0))
                           (a_numberCommitments a)))
       = Returned (commitments preimage)
    /\ hexAll (map hash (padArray (a_nullifiers a) (mkHashed (JNumber 0))
                           (a_numberNullifiers a)))
       = Returned (nullifiers preimage)
    /\ hexAll (padArray (a_historicRootBlockNumberL2 a) (JNumber 0)
                 (a_numberNullifiers a))
       = Returned (historicRootBlockNumberL2 preimage).
Proof.
  unfold construct. intros H. step_outcome H.
  destruct (_ && _) in H; [discriminate|].
  do 13 step_outcome H. injection H as <-.
  eexists _, _. split; [reflexivity|]. split; [eassumption|].
  cbn. repeat split; assumption.
Qed.

(** C10: whenever the constructor returns, the record it returns passes
    [checkHash]: its [transactionHash] is the digest recomputed from its
    own members. *)
Theorem construct_checkHash (a : ConstructorArguments) (tx : TransactionObject) :
  construct a = Returned tx -> checkHash tx = Returned true.
Proof.
  intros H. apply construct_returned in H as (preimage & h & -> & Hk & _).
  apply checkHash_true. exists h.
  rewrite keccak_setTransactionHash. split; [exact Hk|reflexivity].
Qed.

End Class.

(** A concrete instance: hex strings are written in decimal digits of a
    fixed width here, and the digest is a sum. *)
Definition toyHex (v : JsValue) : outcome string :=
  match v with
  | JNumber n => if (0 <=? n)%Z then Returned (pretty n) else Thrown "negative"
  | JString s => Returned s
  | JUndefined => Thrown "undefined"
  end.

Definition toyEncode (fs : list Field) : outcome (list Z) :=
  Returned (flat_map (fun f => match f with
                               | Scalar (JString s) => [Z.of_nat (String.length s)]
                               | Scalar _ => [0%Z]
                               | Array vs => [Z.of_nat (length vs)]
                               end) fs).

Definition toySha3 (bs : list Z) : string :=
  pretty (fold_left (fun acc b => (acc * 31 + b + 1)%Z) bs 7%Z).

Definition toyCompress (p : list JsValue) : outcome (list JsValue) :=
  Returned (take 4 p).

Definition toyFlatProof (p : list JsValue) : outcome (list JsValue) := Returned p.

Definition withdrawArguments : ConstructorArguments (list JsValue) :=
  mkArguments (list JsValue) (JNumber 1) [JNumber 5] (JNumber 3) (JString "ERC20")
    (JNumber 0) (JNumber 10) (JString "0xabc") (JString "0xdef")
    [] [mkHashed (JString "0x11")] None None 4 3.

(** The record the constructor returns for [withdrawArguments]. *)
Definition builtTransaction : TransactionObject :=
  Eval vm_compute in
    match construct (list JsValue) toyFlatProof toyCompress toyHex toyEncode toySha3
            withdrawArguments with
    | Returned t => t
    | Thrown _ =>
        mkTransactionObject JUndefined JUndefined JUndefined JUndefined [] JUndefined
          JUndefined JUndefined [] [] [] [] JUndefined None JUndefined JUndefined JUndefined
    end.

Lemma construct_checkHash_witness :
  exists tx,
    construct (list JsValue) toyFlatProof toyCompress toyHex toyEncode toySha3
      withdrawArguments = Returned tx
    /\ checkHash toyCompress toyEncode toySha3 tx = Returned true
    /\ length (commitments tx) = 3 /\ length (nullifiers tx) = 4.
Proof.
  eexists. split; [vm_compute; reflexivity|].
  split; [|split; reflexivity].
  apply (construct_checkHash (list JsValue) toyFlatProof toyCompress toyHex
           toyEncode toySha3 withdrawArguments).
  vm_compute. reflexivity.
Defined.

End TransactionClass.

(** ** The optimist's transaction-submitted handler and proposer route *)

Module TransactionHandler.
Import TransactionClass.

(** What the handlers throw and catch: a [TransactionError] with its code,
    or any other error. *)
Inductive Exception :=
  | TransactionError (message : string) (code : Z)
  | OtherError (message : string).

(** Modelled from the spec: services/database.mjs is not among the sources;
    the store keeps blocks, each with the hashes of its transactions, and
    transactions keyed by their hash. *)
Record StoredBlock := mkStoredBlock {
  blockHash : JsValue;
  transactionHashes : list JsValue
}.

Record Database := mkDatabase {
  blocks : list StoredBlock;
  transactions : gmap JsValue TransactionObject
}.

(** Modelled from the spec: [getBlockByTransactionHash] of
    services/database.mjs, the stored blocks that hold the hash. *)
Definition getBlockByTransactionHash (db : Database) (h : JsValue) : list StoredBlock :=
  List.filter (fun b => existsb (strictEquals h) (transactionHashes b)) (blocks db).

(** Modelled from the spec: [getTransactionByTransactionHash] of
    services/database.mjs, the stored record under the hash, if any. *)
Definition getTransactionByTransactionHash (db : Database) (h : JsValue)
  : option TransactionObject :=
  transactions db !! h.

(** Modelled from the spec: [saveTransaction] of services/database.mjs,
    which stores the object under its transaction hash. *)
Definition saveTransaction (t : TransactionObject) (db : Database) : Database :=
  mkDatabase (blocks db) (<[transactionHash t := t]> (transactions db)).

Definition setMempool (m : bool) (t : TransactionObject) : TransactionObject :=
  mkTransactionObject (value t) (fee t) (transactionType t) (tokenType t)
    (historicRootBlockNumberL2 t) (tokenId t) (ercAddress t) (recipientAddress t)
    (commitments t) (nullifiers t) (compressedSecrets t) (proof t)
    (transactionHash t) (Some m) (blockNumber t) (transactionHashL1 t) (circuitHash t).

Definition setOrigin (bn l1 : JsValue) (t : TransactionObject) : TransactionObject :=
  mkTransactionObject (value t) (fee t) (transactionType t) (tokenType t)
    (historicRootBlockNumberL2 t) (tokenId t) (ercAddress t) (recipientAddress t)
    (commitments t) (nullifiers t) (compressedSecrets t) (proof t)
    (transactionHash t) (mempool t) bn l1 (circuitHash t).

Definition setFee (f : JsValue) (t : TransactionObject) : TransactionObject :=
  mkTransactionObject (value t) f (transactionType t) (tokenType t)
    (historicRootBlockNumberL2 t) (tokenId t) (ercAddress t) (recipientAddress t)
    (commitments t) (nullifiers t) (compressedSecrets t) (proof t)
    (transactionHash t) (mempool t) (blockNumber t) (transactionHashL1 t) (circuitHash t).

(** [storedTransaction?.blockNumber], read as a condition. *)
Definition carriesBlockNumber (storedTransaction : option TransactionObject) : bool :=
  match storedTransaction with
  | Some st => truthy (blockNumber st)
  | None => false
  end.

(** [async function checkAlreadyInBlock(_transaction)] *)
Definition checkAlreadyInBlock (db : Database) (_transaction : TransactionObject)
  : Exception + TransactionObject :=
  let transaction := _transaction in
  match getBlockByTransactionHash db (transactionHash transaction) with
  | [] => inr transaction
  | block :: _ =>
      let storedTransaction :=
        getTransactionByTransactionHash db (transactionHash transaction) in
      if carriesBlockNumber storedTransaction
      then inl (TransactionError "This transaction has been processed previously" 6)
      else inr (setMempool false transaction)
  end.

(** The parameters of a transaction event: the two flags and the rest. *)
Record EventParams := mkEventParams {
  offchain : bool;
  fromBlockProposer : bool;
  data : TransactionObject
}.

(** What the handlers do to the outside, in order. *)
Inductive Effect :=
  | Received (t : TransactionObject) (fromBlockProposer : bool)
  | Saved (t : TransactionObject)
  | Checked (t : TransactionObject)
  | LogInfo (message : string)
  | LogWarn (message : string)
  | LogError (message : string)
  | SentToWorker (t : TransactionObject) (proposerFlag : bool).

Record World := mkWorld {
  database : Database;
  trace : list Effect;
  isWorkerEnable : bool;
  eventQueue : list EventParams
}.

Definition perform (e : Effect) (w : World) : World :=
  mkWorld (database w) (trace w ++ [e]) (isWorkerEnable w) (eventQueue w).

Definition save (t : TransactionObject) (w : World) : World :=
  perform (Saved t)
    (mkWorld (saveTransaction t (database w)) (trace w) (isWorkerEnable w) (eventQueue w)).

Definition enqueueEvent (e : EventParams) (w : World) : World :=
  mkWorld (database w) (trace w) (isWorkerEnable w) (eventQueue w ++ [e]).


Definition ignoredMessage (message : string) : string :=
  "The transaction check failed with error: " ++ message
  ++ ". The transaction has been ignored".

(** The [catch] of [submitTransaction]. *)
Definition caught (err : Exception) (w : World) : World :=
  match err with
  | TransactionError message _ => perform (LogWarn (ignoredMessage message)) w
  | OtherError message => perform (LogError message) w
  end.

(** How a request to the transaction workers ends. *)
Inductive WorkerReply :=
  | Delivered
  | NoResponse      (* the error carries [request] *)
  | OtherFailure.

Section Handler.

(** [checkTransaction] of services/transaction-checker.mjs: the error it
    throws, if any. *)
Variable checkTransaction : Database -> TransactionObject -> bool -> option Exception.

(** [getTransactionSubmittedCalldata] of services/process-calldata.mjs. *)
Variable getTransactionSubmittedCalldata : TransactionObject -> Exception + TransactionObject.

(** [config.TX_WORKER_PARAMS.txWorkerCount] and the fate of the request
    sent to a worker. *)
Variable txWorkerCount : nat.
Variable workerReply : TransactionObject -> WorkerReply.

(** [stateInstance.methods.getCircuitInfo(circuitHash).call()], read for
    [isEscrowRequired]. *)
Variable getCircuitInfo : JsValue -> Exception + bool.

(** [Number(fee)] *)
Variable Number : JsValue -> JsValue.

(** [export async function submitTransaction(_transaction, fromBlockProposer)] *)
Definition submitTransaction (_transaction : TransactionObject) (fromBlockProposer : bool)
    (w : World) : World :=
  let w0 := perform (Received _transaction fromBlockProposer) w in
  match checkAlreadyInBlock (database w0) _transaction with
  | inl err => caught err w0
  | inr transaction =>
      let w1 := if fromBlockProposer then save transaction w0 else w0 in
      let w2 := perform (Checked transaction) w1 in
      match checkTransaction (database w1) transaction true with
      | Some err => caught err w2
      | None =>
          let w3 := perform (LogInfo "Transaction checks passed") w2 in
          if negb fromBlockProposer then save transaction w3 else w3
      end
  end.

(** [export async function transactionSubmittedEventHandler(eventParams)]:
    the world afterwards, or the error it throws. *)
Definition transactionSubmittedEventHandler (eventParams : EventParams) (w : World)
  : Exception + World :=
  let prepared :=
    if offchain eventParams
    then inr (setOrigin (JString "offchain") (JString "offchain") (data eventParams))
    else match getTransactionSubmittedCalldata (data eventParams) with
         | inl err => inl err
         | inr transaction =>
             inr (setOrigin (blockNumber (data eventParams))
                    (transactionHash (data eventParams)) transaction)
         end in
  match prepared with
  | inl err => inl err
  | inr transaction =>
      if negb (txWorkerCount =? 0)%nat && isWorkerEnable w then
        match workerReply transaction with
        | Delivered =>
            inr (perform (SentToWorker transaction (fromBlockProposer eventParams)) w)
        | NoResponse =>
            inr (submitTransaction transaction (fromBlockProposer eventParams)
                   (perform (LogError "Error submit tx worker") w))
        | OtherFailure => inr (perform (LogError "Error submit tx worker") w)
        end
      else inr (submitTransaction transaction (fromBlockProposer eventParams) w)
  end.

(** [router.post('/offchain-transaction', ...)]: the status sent and the
    world afterwards. *)
Definition postOffchainTransaction (transaction : TransactionObject) (w : World)
  : Z * World :=
  match getCircuitInfo (circuitHash transaction) with
  | inl err => (400%Z, caught err w)
  | inr isEscrowRequired =>
      if isEscrowRequired then (400%Z, w)
      else (200%Z,
            enqueueEvent
              (mkEventParams true false (setFee (Number (fee transaction)) transaction)) w)
  end.

(** What one submission adds to the trace. *)
Definition effectsOf (w w' : World) : list Effect :=
  drop (length (trace w)) (trace w').

(** The transaction the event handler passes on. *)
Definition preparedTransaction (e : EventParams) : Exception + TransactionObject :=
  if offchain e
  then inr (setOrigin (JString "offchain") (JString "offchain") (data e))
  else match getTransactionSubmittedCalldata (data e) with
       | inl err => inl err
       | inr transaction =>
           inr (setOrigin (blockNumber (data e)) (transactionHash (data e)) transaction)
       end.

(** *** Replays and re-mines *)

Lemma checkAlreadyInBlock_unseen (db : Database) (t : TransactionObject) :
  getBlockByTransactionHash db (transactionHash t) = [] ->
  checkAlreadyInBlock db t = inr t.
Proof. intros H. unfold checkAlreadyInBlock. rewrite H. reflexivity. Qed.

Lemma checkAlreadyInBlock_replay (db : Database) (t : TransactionObject) :
  getBlockByTransactionHash db (transactionHash t) <> [] ->
  carriesBlockNumber (getTransactionByTransactionHash db (transactionHash t)) = true ->
  checkAlreadyInBlock db t
  = inl (TransactionError "This transaction has been processed previously" 6).
Proof.
  intros Hb Hs. unfold checkAlreadyInBlock.
  destruct (getBlockByTransactionHash db (transactionHash t)); [contradiction|].
  rewrite Hs. reflexivity.
Qed.

Lemma checkAlreadyInBlock_remine (db : Database) (t : TransactionObject) :
  getBlockByTransactionHash db (transactionHash t) <> [] ->
  carriesBlockNumber (getTransactionByTransactionHash db (transactionHash t)) = false ->
  checkAlreadyInBlock db t = inr (setMempool false t).
Proof.
  intros Hb Hs. unfold checkAlreadyInBlock.
  destruct (getBlockByTransactionHash db (transactionHash t)); [contradiction|].
  rewrite Hs. reflexivity.
Qed.

(** A submission announces itself, runs [checkTransaction] on the copy
    that passed [checkAlreadyInBlock], and saves nothing but that copy. *)
Lemma submitTransaction_effects (t : TransactionObject) (flag : bool) (w : World) :
  exists effects,
    trace (submitTransaction t flag w) = trace w ++ Received t flag :: effects
    /\ (forall saved, In (Saved saved) effects ->
          checkAlreadyInBlock (database w) t = inr saved)
    /\ (forall t', checkAlreadyInBlock (database w) t = inr t' ->
          In (Checked t') effects).
Proof using checkTransaction.
  clear getTransactionSubmittedCalldata txWorkerCount workerReply getCircuitInfo Number.
  unfold submitTransaction. cbn [perform database].
  destruct (checkAlreadyInBlock (database w) t) as [err|t'] eqn:E.
  - destruct err; cbn; rewrite <- app_assoc; eexists; (split; [reflexivity|]);
      (split; [intros saved [H|[]]; discriminate|intros t' Ht'; discriminate]).
  - destruct flag; cbn [save perform database trace negb];
      destruct (checkTransaction _ t' true) as [[m ?|m]|]; cbn;
      rewrite <- !app_assoc; eexists; (split; [reflexivity|]);
      (split;
       [intros saved Hin; cbn in Hin;
        repeat (destruct Hin as [Hin|Hin]; [try discriminate Hin; congruence|]);
        destruct Hin
       |intros t'' Ht''; injection Ht'' as <-; cbn; auto 6]).
Qed.

Lemma trace_effectsOf (t : TransactionObject) (flag : bool) (w : World) :
  trace (submitTransaction t flag w)
  = trace w ++ effectsOf w (submitTransaction t flag w).
Proof using checkTransaction.
  clear getTransactionSubmittedCalldata txWorkerCount workerReply getCircuitInfo Number.
  destruct (submitTransaction_effects t flag w) as (effects & Htrace & _).
  unfold effectsOf. rewrite Htrace, drop_app_length. reflexivity.
Qed.

(** C2: a transaction found in a stored block whose stored record carries
    a block number is a replay: [checkAlreadyInBlock] throws the
    transaction error, and all the submission does is log that the
    transaction has been ignored; the store is left as it was. Found in a
    stored block with a stored record that has no block number, it is a
    re-mine: the copy that goes on to [checkTransaction] has [mempool] set
    to [false], the other members unchanged, and so has any record the
    submission saves. Found in no stored block, it goes on unchanged. *)
Theorem replay_and_remine (t : TransactionObject) (flag : bool) (w : World) :
  let inBlocks := getBlockByTransactionHash (database w) (transactionHash t) in
  let stored := getTransactionByTransactionHash (database w) (transactionHash t) in
  let effects := effectsOf w (submitTransaction t flag w) in
  (inBlocks <> [] -> carriesBlockNumber stored = true ->
     checkAlreadyInBlock (database w) t
     = inl (TransactionError "This transaction has been processed previously" 6)
     /\ database (submitTransaction t flag w) = database w
     /\ effects
        = [Received t flag;
           LogWarn (ignoredMessage "This transaction has been processed previously")])
  /\ (inBlocks <> [] -> carriesBlockNumber stored = false ->
       checkAlreadyInBlock (database w) t = inr (setMempool false t)
       /\ mempool (setMempool false t) = Some false
       /\ In (Checked (setMempool false t)) effects
       /\ forall saved, In (Saved saved) effects -> saved = setMempool false t)
  /\ (inBlocks = [] ->
       checkAlreadyInBlock (database w) t = inr t
       /\ In (Checked t) effects
       /\ forall saved, In (Saved saved) effects -> saved = t).
Proof using checkTransaction.
  clear getTransactionSubmittedCalldata txWorkerCount workerReply getCircuitInfo Number.
  intros inBlocks stored effects.
  destruct (submitTransaction_effects t flag w) as (effects' & Htrace & Hsaved & Hchecked).
  assert (Heff : effects = Received t flag :: effects').
  { unfold effects, effectsOf. rewrite Htrace, drop_app_length. reflexivity. }
  assert (Hkept : forall t', checkAlreadyInBlock (database w) t = inr t' ->
            In (Checked t') effects
            /\ forall saved, In (Saved saved) effects -> saved = t').
  { intros t' E. rewrite Heff. split.
    - right. apply Hchecked, E.
    - intros saved [Hin|Hin]; [discriminate|].
      specialize (Hsaved saved Hin). congruence. }
  split; [|split].
  - intros Hb Hs. pose proof (checkAlreadyInBlock_replay _ _ Hb Hs) as E.
    split; [exact E|]. unfold effects, effectsOf, submitTransaction.
    cbn [perform database]. rewrite E. cbn.
    rewrite <- app_assoc, drop_app_length. split; reflexivity.
  - intros Hb Hs. pose proof (checkAlreadyInBlock_remine _ _ Hb Hs) as E.
    split; [exact E|]. split; [reflexivity|]. apply Hkept, E.
  - intros Hb. pose proof (checkAlreadyInBlock_unseen _ _ Hb) as E.
    split; [exact E|]. apply Hkept, E.
Qed.

(** *** Persisting and validating *)

Lemma submitTransaction_fromBlockProposer (t t' : TransactionObject) (w : World) :
  checkAlreadyInBlock (database w) t = inr t' ->
  let w1 := saveTransaction t' (database w) in
  database (submitTransaction t true w) = w1
  /\ trace (submitTransaction t true w)
     = trace w ++ [Received t true; Saved t'; Checked t']
       ++ match checkTransaction w1 t' true with
          | Some (TransactionError m _) => [LogWarn (ignoredMessage m)]
          | Some (OtherError m) => [LogError m]
          | None => [LogInfo "Transaction checks passed"]
          end.
Proof.
  intros E w1. unfold submitTransaction. cbn [perform database]. rewrite E.
  cbn [save perform database trace negb]. fold w1.
  destruct (checkTransaction w1 t' true) as [[m ?|m]|]; cbn;
    rewrite <- !app_assoc; split; reflexivity.
Qed.

Lemma submitTransaction_otherwise (t t' : TransactionObject) (w : World) :
  checkAlreadyInBlock (database w) t = inr t' ->
  match checkTransaction (database w) t' true with
  | Some err =>
      database (submitTransaction t false w) = database w
      /\ trace (submitTransaction t false w)
         = trace w ++ [Received t false; Checked t']
           ++ match err with
              | TransactionError m _ => [LogWarn (ignoredMessage m)]
              | OtherError m => [LogError m]
              end
  | None =>
      database (submitTransaction t false w) = saveTransaction t' (database w)
      /\ trace (submitTransaction t false w)
         = trace w ++ [Received t false; Checked t';
                       LogInfo "Transaction checks passed"; Saved t']
  end.
Proof.
  intros E. unfold submitTransaction. cbn [perform database]. rewrite E.
  cbn [save perform database trace negb].
  destruct (checkTransaction (database w) t' true) as [[m ?|m]|]; cbn;
    rewrite <- !app_assoc; split; reflexivity.
Qed.

Lemma handler_main_thread (e : EventParams) (w : World) (t : TransactionObject) :
  negb (txWorkerCount =? 0)%nat && isWorkerEnable w = false ->
  preparedTransaction e = inr t ->
  transactionSubmittedEventHandler e w = inr (submitTransaction t (fromBlockProposer e) w).
Proof.
  intros Hmain Hprep. unfold transactionSubmittedEventHandler.
  fold (preparedTransaction e). rewrite Hprep, Hmain. reflexivity.
Qed.

(** C5, as the code has it: the order of persisting and validating follows
    the [fromBlockProposer] flag of the event, whatever its [offchain] flag
    says. With the flag set, the transaction that passed
    [checkAlreadyInBlock] is saved before [checkTransaction] runs and stays
    stored when the check rejects it; without it, the check runs first and
    the transaction is saved only if the check passes, so a rejected one
    leaves the store as it was. *)
Theorem persistence_follows_fromBlockProposer
    (e : EventParams) (w : World) (t t' : TransactionObject) :
  negb (txWorkerCount =? 0)%nat && isWorkerEnable w = false ->
  preparedTransaction e = inr t ->
  checkAlreadyInBlock (database w) t = inr t' ->
  exists w',
    transactionSubmittedEventHandler e w = inr w'
    /\ (fromBlockProposer e = true ->
          exists after,
            trace w' = trace w ++ [Received t true; Saved t'; Checked t'] ++ after
            /\ (forall x, ~ In (Saved x) after)
            /\ database w' = saveTransaction t' (database w)
            /\ transactions (database w') !! transactionHash t' = Some t')
    /\ (fromBlockProposer e = false ->
          match checkTransaction (database w) t' true with
          | Some err =>
              database w' = database w
              /\ forall x, ~ In (Saved x) (effectsOf w w')
          | None =>
              trace w' = trace w ++ [Received t false; Checked t';
                                     LogInfo "Transaction checks passed"; Saved t']
              /\ database w' = saveTransaction t' (database w)
          end).
Proof.
  intros Hmain Hprep Hpass. eexists. split; [apply handler_main_thread; eassumption|].
  split.
  - intros ->. destruct (submitTransaction_fromBlockProposer t t' w Hpass) as [Hdb Htr].
    eexists. split; [exact Htr|]. split.
    + intros x Hin.
      destruct (checkTransaction _ t' true) as [[m ?|m]|]; cbn in Hin;
        destruct Hin as [H|[]]; discriminate.
    + split; [exact Hdb|]. rewrite Hdb. cbn. apply lookup_insert_eq.
  - intros ->. pose proof (submitTransaction_otherwise t t' w Hpass) as H.
    destruct (checkTransaction (database w) t' true) as [err|].
    + destruct H as [Hdb Htr]. split; [exact Hdb|].
      intros x Hin. unfold effectsOf in Hin. rewrite Htr, drop_app_length in Hin.
      destruct err; cbn in Hin; destruct Hin as [H|[H|[H|[]]]]; discriminate.
    + destruct H as [Hdb Htr]. split; [exact Htr|exact Hdb].
Qed.

(** *** The off-chain route *)

(** A transaction whose circuit requires escrow is answered with status
    400 and is not queued. *)
Lemma postOffchainTransaction_escrow (t : TransactionObject) (w : World) :
  getCircuitInfo (circuitHash t) = inr true ->
  postOffchainTransaction t w = (400%Z, w).
Proof. intros H. unfold postOffchainTransaction. rewrite H. reflexivity. Qed.

Lemma postOffchainTransaction_accepted (t : TransactionObject) (w : World) :
  fst (postOffchainTransaction t w) = 200%Z <->
  getCircuitInfo (circuitHash t) = inr false.
Proof.
  unfold postOffchainTransaction.
  destruct (getCircuitInfo (circuitHash t)) as [err|[|]]; cbn; split;
    intros H; try discriminate; reflexivity.
Qed.

End Handler.

(** *** The hash check on ingestion *)

Section HashOnIngestion.

Variable ProofObject : Type.
Variable flatProof : ProofObject -> outcome (list JsValue).
Variable compressProof : list JsValue -> outcome (list JsValue).
Variable hex32 : JsValue -> outcome string.
Variable encodeParameters : list Field -> outcome (list Z).
Variable soliditySha3 : list Z -> string.

(** The checks of [checkTransaction] that follow the hash check. *)
Variable structuralChecks : Database -> TransactionObject -> bool -> option Exception.





End HashOnIngestion.

(** *** Concrete submissions *)

Definition rejectAll (db : Database) (t : TransactionObject) (flag : bool)
  : option Exception :=
  Some (TransactionError "The nullifier has already been spent" 2).

Definition acceptAll (db : Database) (t : TransactionObject) (flag : bool)
  : option Exception := None.

Definition decodeCalldata (d : TransactionObject) : Exception + TransactionObject :=
  inr d.

Definition alwaysDelivered (t : TransactionObject) : WorkerReply := Delivered.

Definition emptyWorld : World := mkWorld (mkDatabase [] ∅) [] false [].

(** The hash under which [builtTransaction] is stored. *)
Definition builtHash : JsValue := transactionHash builtTransaction.

(** [builtTransaction] is in a stored block; its stored record was mined
    in L1 block 12. *)
Definition minedWorld : World :=
  mkWorld
    (mkDatabase [mkStoredBlock (JString "0xb1") [JString "0xother"; builtHash]]
       {[ builtHash := setOrigin (JNumber 12) (JString "0xl1") builtTransaction ]})
    [] false [].

(** The same block is stored, the record of the transaction has no block
    number. *)
Definition reminedWorld : World :=
  mkWorld
    (mkDatabase [mkStoredBlock (JString "0xb1") [JString "0xother"; builtHash]]
       {[ builtHash := builtTransaction ]})
    [] false [].

Lemma replay_and_remine_witness :
  database (submitTransaction acceptAll builtTransaction false minedWorld)
  = database minedWorld
  /\ In (Checked (setMempool false builtTransaction))
       (effectsOf reminedWorld
          (submitTransaction acceptAll builtTransaction false reminedWorld))
  /\ In (Checked builtTransaction)
       (effectsOf emptyWorld
          (submitTransaction acceptAll builtTransaction false emptyWorld)).
Proof.
  split; [|split].
  - destruct (replay_and_remine acceptAll builtTransaction false minedWorld)
      as (Hreplay & _ & _).
    apply Hreplay; [discriminate|reflexivity].
  - destruct (replay_and_remine acceptAll builtTransaction false reminedWorld)
      as (_ & Hremine & _).
    apply Hremine; [discriminate|reflexivity].
  - destruct (replay_and_remine acceptAll builtTransaction false emptyWorld)
      as (_ & _ & Hunseen).
    apply Hunseen. reflexivity.
Defined.

(** An event read from the chain, not from a block proposer, whose
    transaction the check rejects, is not stored; an off-chain one from a
    block proposer that the check rejects is stored, and before the check
    ran. *)
Lemma persistence_does_not_follow_origin :
  (exists w',
     transactionSubmittedEventHandler rejectAll decodeCalldata 0 alwaysDelivered
       (mkEventParams false false builtTransaction) emptyWorld = inr w'
     /\ In (Checked (setOrigin JUndefined builtHash builtTransaction)) (trace w')
     /\ transactions (database w') = ∅)
  /\ (exists w',
       transactionSubmittedEventHandler rejectAll decodeCalldata 0 alwaysDelivered
         (mkEventParams true true builtTransaction) emptyWorld = inr w'
       /\ trace w'
          = [Received (setOrigin (JString "offchain") (JString "offchain") builtTransaction) true;
             Saved (setOrigin (JString "offchain") (JString "offchain") builtTransaction);
             Checked (setOrigin (JString "offchain") (JString "offchain") builtTransaction);
             LogWarn (ignoredMessage "The nullifier has already been spent")]
       /\ transactions (database w') !! builtHash
          = Some (setOrigin (JString "offchain") (JString "offchain") builtTransaction)).
Proof.
  split.
  - eexists. split; [reflexivity|]. split; [|reflexivity].
    cbn. right. left. reflexivity.
  - eexists. split; [reflexivity|]. split; [reflexivity|]. reflexivity.
Qed.

Lemma persistence_follows_fromBlockProposer_witness :
  (exists w',
     transactionSubmittedEventHandler rejectAll decodeCalldata 0 alwaysDelivered
       (mkEventParams false true builtTransaction) emptyWorld = inr w'
     /\ transactions (database w') !! builtHash
        = Some (setOrigin JUndefined builtHash builtTransaction))
  /\ (exists w',
       transactionSubmittedEventHandler rejectAll decodeCalldata 0 alwaysDelivered
         (mkEventParams true false builtTransaction) emptyWorld = inr w'
       /\ database w' = database emptyWorld).
Proof.
  split.
  - destruct (persistence_follows_fromBlockProposer rejectAll decodeCalldata 0
                alwaysDelivered (mkEventParams false true builtTransaction) emptyWorld
                (setOrigin JUndefined builtHash builtTransaction)
                (setOrigin JUndefined builtHash builtTransaction)
                eq_refl eq_refl eq_refl) as (w' & E & Hflag & _).
    exists w'. split; [exact E|].
    destruct (Hflag eq_refl) as (after & _ & _ & _ & Hstored). exact Hstored.
  - destruct (persistence_follows_fromBlockProposer rejectAll decodeCalldata 0
                alwaysDelivered (mkEventParams true false builtTransaction) emptyWorld
                (setOrigin (JString "offchain") (JString "offchain") builtTransaction)
                (setOrigin (JString "offchain") (JString "offchain") builtTransaction)
                eq_refl eq_refl eq_refl) as (w' & E & _ & Hnoflag).
    exists w'. split; [exact E|].
    destruct (Hnoflag eq_refl) as [Hdb _]. exact Hdb.
Defined.



End TransactionHandler.

(** ** The client's withdraw service *)

Module WithdrawService.
Import TransactionClass.

(** Modelled from the spec: services/commitment-storage.mjs is not among
    the sources; a stored commitment is available, pending (reserved by a
    transaction being built) or nullified, with a reference to the
    transaction that spent it. *)
Inductive CommitmentState :=
  | Available
  | Pending
  | Nullified (spentBy : JsValue).

Record Commitment := mkCommitment {
  c_hash : JsValue;
  c_compressedPkd : JsValue;
  c_ercAddress : JsValue;
  c_tokenId : JsValue;
  c_value : Z;
  c_salt : JsValue
}.

#[global] Instance Commitment_eq_dec : EqDecision Commitment.
Proof. solve_decision. Defined.

#[global] Instance CommitmentState_eq_dec : EqDecision CommitmentState.
Proof. solve_decision. Defined.

(** The store, in the order of the collection. *)
Definition CommitmentStore := list (Commitment * CommitmentState).

Definition usable (compressedPkd ercAddress tokenId : JsValue) (value : Z)
    (entry : Commitment * CommitmentState) : bool :=
  bool_decide (snd entry = Available)
  && strictEquals (c_compressedPkd (fst entry)) compressedPkd
  && strictEquals (c_ercAddress (fst entry)) ercAddress
  && strictEquals (c_tokenId (fst entry)) tokenId
  && (c_value (fst entry) =? value)%Z.

Definition setState (c : Commitment) (st : CommitmentState) (store : CommitmentStore)
  : CommitmentStore :=
  map (fun entry => if bool_decide (fst entry = c) then (c, st) else entry) store.

Definition stateOf (c : Commitment) (store : CommitmentStore) : option CommitmentState :=
  snd <$> List.find (fun entry => bool_decide (fst entry = c)) store.

(** Modelled from the spec: [findUsableCommitmentsMutex] with
    [onlyOne = true], the spec's [reserve] with an exact match: the first
    available commitment of the owner, asset, token id and value, marked
    pending before it is returned. *)
Definition findUsableCommitmentsMutex (compressedPkd ercAddress tokenId : JsValue)
    (value : Z) (store : CommitmentStore) : option Commitment * CommitmentStore :=
  match List.find (usable compressedPkd ercAddress tokenId value) store with
  | Some (c, _) => (Some c, setState c Pending store)
  | None => (None, store)
  end.

(** Modelled from the spec: [markNullified], the spec's [confirmSpent]:
    the commitment becomes nullified and refers to the spending
    transaction. *)
Definition markNullified (c : Commitment) (transaction : TransactionObject)
    (store : CommitmentStore) : CommitmentStore :=
  setState c (Nullified (transactionHash transaction)) store.

(** Modelled from the spec: [clearPending], the spec's [release]: a
    pending commitment becomes available again. *)
Definition clearPending (c : Commitment) (store : CommitmentStore) : CommitmentStore :=
  map (fun entry =>
         if bool_decide (fst entry = c) && bool_decide (snd entry = Pending)
         then (c, Available) else entry) store.

(** The parameters of a withdrawal. *)
Record WithdrawParams := mkWithdrawParams {
  p_ercAddress : JsValue;
  p_tokenId : JsValue;
  p_tokenType : JsValue;
  p_value : Z;
  p_recipientAddress : JsValue;
  p_nsk : JsValue;
  p_ask : JsValue;
  p_fee : JsValue
}.

(** What [getSiblingInfo] returns. *)
Record SiblingInfo := mkSiblingInfo {
  s_root : JsValue;
  s_leafIndex : JsValue;
  s_isOnChain : JsValue;
  s_siblingPath : list JsValue
}.

Section Withdraw.

(** The collaborators of [withdraw], each with the error it may throw:
    [calculateIvkPkdfromAskNsk], [new Nullifier], [getSiblingInfo],
    [new PublicInputs] with the witness input, [getContractInstance],
    [new Transaction] and [encodeABI] of the shield's
    [submitTransaction]. *)
Variable calculateIvkPkdfromAskNsk : JsValue -> JsValue -> outcome JsValue.
Variable newNullifier : Commitment -> JsValue -> outcome JsValue.
Variable getSiblingInfo : Commitment -> outcome SiblingInfo.
Variable witnessInput : Commitment -> JsValue -> SiblingInfo -> outcome (list JsValue).
Variable getContractInstance : outcome unit.
Variable newTransaction :
  WithdrawParams -> JsValue -> SiblingInfo -> outcome TransactionObject.
Variable encodeABI : TransactionObject -> outcome string.

(** The part of [withdraw] between the reservation and the [try]. *)
Definition prepare (params : WithdrawParams) (oldCommitment : Commitment)
  : outcome TransactionObject :=
  andThen (newNullifier oldCommitment (p_nsk params)) (fun nullifier =>
  andThen (getSiblingInfo oldCommitment) (fun commitmentTreeInfo =>
  andThen (witnessInput oldCommitment nullifier commitmentTreeInfo) (fun _ =>
  andThen getContractInstance (fun _ =>
  newTransaction params nullifier commitmentTreeInfo)))).

(** [async function withdraw(withdrawParams)]: what it returns or throws,
    and the store afterwards. *)
Definition withdraw (params : WithdrawParams) (store : CommitmentStore)
  : outcome (string * TransactionObject) * CommitmentStore :=
  match calculateIvkPkdfromAskNsk (p_ask params) (p_nsk params) with
  | Thrown m => (Thrown m, store)
  | Returned compressedPkd =>
      match findUsableCommitmentsMutex compressedPkd (p_ercAddress params)
              (p_tokenId params) (p_value params) store with
      | (None, store1) => (Thrown "No suitable commitments were found", store1)
      | (Some oldCommitment, store1) =>
          match prepare params oldCommitment with
          | Thrown m => (Thrown m, store1)
          | Returned optimisticWithdrawTransaction =>
              match encodeABI optimisticWithdrawTransaction with
              | Returned rawTransaction =>
                  (Returned (rawTransaction, optimisticWithdrawTransaction),
                   markNullified oldCommitment optimisticWithdrawTransaction store1)
              | Thrown err =>
                  (Thrown ("Error: " ++ err), clearPending oldCommitment store1)
              end
          end
      end
  end.

(** *** Reserving, releasing and confirming *)

Lemma find_usable_available (pkd erc tid : JsValue) (v : Z) (store : CommitmentStore)
    (c : Commitment) (st : CommitmentState) :
  List.find (usable pkd erc tid v) store = Some (c, st) ->
  st = Available /\ In (c, Available) store.
Proof.
  intros H. apply find_some in H as [Hin Hus]. unfold usable in Hus.
  repeat (apply andb_prop in Hus as [Hus ?]).
  apply bool_decide_eq_true in Hus. simpl in Hus. subst st. split; [reflexivity|exact Hin].
Qed.

Lemma stateOf_setState (c : Commitment) (st : CommitmentState) (store : CommitmentStore) :
  In c (map fst store) -> stateOf c (setState c st store) = Some st.
Proof.
  unfold stateOf, setState. induction store as [|[c' st'] store IH]; intros Hin.
  - destruct Hin.
  - cbn [map List.find fst]. destruct (bool_decide (c' = c)) eqn:E.
    + cbn [fst]. rewrite bool_decide_eq_true_2 by reflexivity. reflexivity.
    + cbn [fst]. rewrite E. apply IH. destruct Hin as [Hc|Hin]; [|exact Hin].
      simpl in Hc. apply bool_decide_eq_false in E. contradiction.
Qed.

Lemma release_restores (c : Commitment) (store : CommitmentStore) :
  NoDup (map fst store) -> In (c, Available) store ->
  clearPending c (setState c Pending store) = store.
Proof.
  intros Hnd Hin. unfold clearPending, setState. rewrite map_map.
  rewrite <- (map_id store) at 2. apply map_ext_in.
  intros [c' st'] Hin'. cbn [fst snd].
  destruct (bool_decide (c' = c)) eqn:E.
  - cbn [fst snd]. rewrite !bool_decide_eq_true_2 by reflexivity. cbn [andb].
    apply bool_decide_eq_true in E. subst c'.
    assert (st' = Available) as ->; [|reflexivity].
    clear -Hnd Hin Hin'. induction store as [|[d sd] store IH]; [destruct Hin|].
    cbn [map fst] in Hnd. apply NoDup_cons in Hnd as [Hnotin Hnd].
    destruct Hin as [Hin|Hin]; destruct Hin' as [Hin'|Hin'].
    + congruence.
    + injection Hin as -> ->. exfalso. apply Hnotin.
      apply list_elem_of_In, in_map_iff. exists (c, st'). split; [reflexivity|exact Hin'].
    + injection Hin' as -> ->. exfalso. apply Hnotin.
      apply list_elem_of_In, in_map_iff. exists (c, Available). split; [reflexivity|exact Hin].
    + apply IH; assumption.
  - cbn [fst snd]. rewrite E. reflexivity.
Qed.

(** A failure inside the [try] releases the commitment: the store is as
    it was before the reservation, so the same reservation succeeds
    again. *)
Lemma withdraw_release_in_try (params : WithdrawParams) (store : CommitmentStore)
    (pkd : JsValue) (c : Commitment) (st : CommitmentState) (tx : TransactionObject)
    (err : string) :
  NoDup (map fst store) ->
  calculateIvkPkdfromAskNsk (p_ask params) (p_nsk params) = Returned pkd ->
  List.find (usable pkd (p_ercAddress params) (p_tokenId params) (p_value params)) store
  = Some (c, st) ->
  prepare params c = Returned tx ->
  encodeABI tx = Thrown err ->
  withdraw params store = (Thrown ("Error: " ++ err), store).
Proof.
  intros Hnd Hpkd Hfind Hprep Henc. unfold withdraw, findUsableCommitmentsMutex.
  rewrite Hpkd, Hfind, Hprep, Henc.
  apply find_usable_available in Hfind as [_ Hin].
  rewrite release_restores by assumption. reflexivity.
Qed.

(** On success the commitment is nullified and refers to the spending
    transaction. *)
Lemma withdraw_success (params : WithdrawParams) (store : CommitmentStore)
    (pkd : JsValue) (c : Commitment) (st : CommitmentState) (tx : TransactionObject)
    (raw : string) :
  calculateIvkPkdfromAskNsk (p_ask params) (p_nsk params) = Returned pkd ->
  List.find (usable pkd (p_ercAddress params) (p_tokenId params) (p_value params)) store
  = Some (c, st) ->
  prepare params c = Returned tx ->
  encodeABI tx = Returned raw ->
  fst (withdraw params store) = Returned (raw, tx)
  /\ stateOf c (snd (withdraw params store)) = Some (Nullified (transactionHash tx)).
Proof.
  intros Hpkd Hfind Hprep Henc. unfold withdraw, findUsableCommitmentsMutex.
  rewrite Hpkd, Hfind, Hprep, Henc. cbn [fst snd]. split; [reflexivity|].
  apply find_usable_available in Hfind as [_ Hin].
  unfold markNullified.
  assert (Hc : In c (map fst store)).
  { apply in_map_iff. exists (c, Available). split; [reflexivity|exact Hin]. }
  assert (Hc' : In c (map fst (setState c Pending store))).
  { unfold setState. rewrite map_map. apply in_map_iff.
    exists (c, Available). split; [|exact Hin].
    cbn [fst]. rewrite bool_decide_eq_true_2 by reflexivity. reflexivity. }
  apply stateOf_setState, Hc'.
Qed.

(** A failure between the reservation and the [try] leaves the
    commitment pending: nothing releases it. *)
Lemma withdraw_failure_before_try (params : WithdrawParams) (store : CommitmentStore)
    (pkd : JsValue) (c : Commitment) (st : CommitmentState) (err : string) :
  calculateIvkPkdfromAskNsk (p_ask params) (p_nsk params) = Returned pkd ->
  List.find (usable pkd (p_ercAddress params) (p_tokenId params) (p_value params)) store
  = Some (c, st) ->
  prepare params c = Thrown err ->
  fst (withdraw params store) = Thrown err
  /\ snd (withdraw params store) = setState c Pending store
  /\ stateOf c (snd (withdraw params store)) = Some Pending.
Proof.
  intros Hpkd Hfind Hprep. unfold withdraw, findUsableCommitmentsMutex.
  rewrite Hpkd, Hfind, Hprep. cbn [fst snd]. split; [reflexivity|].
  split; [reflexivity|].
  apply find_usable_available in Hfind as [_ Hin].
  apply stateOf_setState, in_map_iff. exists (c, Available).
  split; [reflexivity|exact Hin].
Qed.

End Withdraw.

(** *** A withdrawal during which the tree service fails *)

Definition aliceKey : JsValue := JString "0xpkd".

Definition tenTokens : Commitment :=
  mkCommitment (JString "0xc10") aliceKey (JString "0xerc") (JNumber 0) 10 (JString "0xsalt").

Definition withdrawTen : WithdrawParams :=
  mkWithdrawParams (JString "0xerc") (JNumber 0) (JString "ERC20") 10
    (JString "0xrecipient") (JString "0xnsk") (JString "0xask") (JNumber 1).

Definition keysOf (ask nsk : JsValue) : outcome JsValue := Returned aliceKey.

Definition nullifierOf (c : Commitment) (nsk : JsValue) : outcome JsValue :=
  Returned (JString "0xnullifier").

Definition treeDown (c : Commitment) : outcome SiblingInfo :=
  Thrown "connect ECONNREFUSED timber".

Definition treeUp (c : Commitment) : outcome SiblingInfo :=
  Returned (mkSiblingInfo (JString "0xroot") (JNumber 0) (JNumber 1) []).

Definition noWitness (c : Commitment) (n : JsValue) (i : SiblingInfo)
  : outcome (list JsValue) := Returned [].

Definition transactionOf (p : WithdrawParams) (n : JsValue) (i : SiblingInfo)
  : outcome TransactionObject := Returned builtTransaction.

Definition encodes (t : TransactionObject) : outcome string := Returned "0xraw".

Definition encodeFails (t : TransactionObject) : outcome string :=
  Thrown "invalid address".

(** C7 where [getSiblingInfo] throws after the commitment was reserved:
    [withdraw] throws that error, the commitment stays pending, and the same
    reservation no longer finds it. When [encodeABI] throws instead, the
    commitment is released and the reservation finds it again. *)
Theorem withdraw_strands_commitment :
  let store := [(tenTokens, Available)] in
  let failed :=
    withdraw keysOf nullifierOf treeDown noWitness (Returned tt) transactionOf encodes
      withdrawTen store in
  let released :=
    withdraw keysOf nullifierOf treeUp noWitness (Returned tt) transactionOf encodeFails
      withdrawTen store in
  fst failed = Thrown "connect ECONNREFUSED timber"
  /\ stateOf tenTokens (snd failed) = Some Pending
  /\ fst (findUsableCommitmentsMutex aliceKey (JString "0xerc") (JNumber 0) 10 (snd failed))
     = None
  /\ fst released = Thrown "Error: invalid address"
  /\ fst (findUsableCommitmentsMutex aliceKey (JString "0xerc") (JNumber 0) 10
            (snd released))
     = Some tenTokens.
Proof.
  cbv zeta.
  destruct (withdraw_failure_before_try keysOf nullifierOf treeDown noWitness
              (Returned tt) transactionOf encodes withdrawTen
              [(tenTokens, Available)] aliceKey tenTokens Available
              "connect ECONNREFUSED timber" eq_refl eq_refl eq_refl)
    as (Hthrown & Hstore & Hpending).
  split; [exact Hthrown|]. split; [exact Hpending|].
  split; [rewrite Hstore; reflexivity|].
  split; reflexivity.
Qed.

End WithdrawService.

(** ** State.sol: the block queue, the fee book and the accounts *)

Module StateQueue.
Import Evm StateContract.
Local Open Scope Z_scope.

(** [modifier onlyChallenger] *)
Definition onlyChallenger (c : Call) (s : Storage) : result unit :=
  require (msg_sender c =? challengesAddress s) "Only challenger contract is authorized".

(** [modifier onlyShield] *)
Definition onlyShield (c : Call) (s : Storage) : result unit :=
  require (msg_sender c =? shieldAddress s) "Only shield contract is authorized".

(** [modifier onlyProposer] *)
Definition onlyProposer (c : Call) (s : Storage) : result unit :=
  require (msg_sender c =? proposersAddress s) "Only proposer contract is authorized".

Definition setBlockHashes (hs : list BlockData) (s : Storage) : Storage :=
  mkStorage hs (proposers s) (feeBook s) (currentProposer s)
    (proposerStartBlock s) (proposersAddress s) (challengesAddress s)
    (shieldAddress s) (paused s) (events s).

Definition setFeeBook (fb : gmap Z (Z * Z)) (s : Storage) : Storage :=
  mkStorage (blockHashes s) (proposers s) fb (currentProposer s)
    (proposerStartBlock s) (proposersAddress s) (challengesAddress s)
    (shieldAddress s) (paused s) (events s).

(** [function popBlockData() public onlyChallenger returns (BlockData memory)]:
    [blockHashes.length - 1] is a checked subtraction, so the call panics
    on an empty array. *)
Definition popBlockData (c : Call) (s : Storage) : result (BlockData * Storage) :=
  bind (onlyChallenger c s) (fun _ =>
    if (length (blockHashes s) =? 0)%nat then Revert "panic: arithmetic underflow"
    else
      match blockHashes s !! (length (blockHashes s) - 1)%nat with
      | None => Revert "panic: index out of bounds"
      | Some popped =>
          Ok (popped, setBlockHashes (take (length (blockHashes s) - 1) (blockHashes s)) s)
      end).

(** [function getBlockData(uint256 blockNumberL2) public view] *)
Definition getBlockData (blockNumberL2 : Z) (s : Storage) : result BlockData :=
  if (0 <=? blockNumberL2) && (blockNumberL2 <? Z.of_nat (length (blockHashes s)))
  then match blockHashes s !! Z.to_nat blockNumberL2 with
       | Some d => Ok d
       | None => Revert "panic: index out of bounds"
       end
  else Revert "panic: index out of bounds".

(** [function getNumberOfL2Blocks() public view returns (uint256)] *)
Definition getNumberOfL2Blocks (s : Storage) : Z := Z.of_nat (length (blockHashes s)).

(** The fees of a block's deposits, and of its other transactions. *)
Fixpoint depositFees (ts : list Transaction) : Z :=
  match ts with
  | [] => 0
  | t :: ts' => (if transactionType t =? DEPOSIT then fee t else 0) + depositFees ts'
  end.

Fixpoint otherFees (ts : list Transaction) : Z :=
  match ts with
  | [] => 0
  | t :: ts' => (if transactionType t =? DEPOSIT then 0 else fee t) + otherFees ts'
  end.

Section Queries.

Variable keccak256 : list Z -> Z.
Variable BLOCK_STAKE : Z.
Variable TRANSACTIONS_PER_BLOCK : nat.
Variable call_returndata : Z -> list Z -> list Z.
Variable shieldAddress_slot : Z.

(** [Utils.hashBlock] and [Utils.hashTransactionHashes] of Utils.sol, which
    is not among the sources. *)
Variable Utils_hashBlock : Block -> Z.
Variable Utils_hashTransactionHashes : list Transaction -> Z.

(** [function getFeeBookInfo(address proposer, uint256 blockNumberL2)] *)
Definition getFeeBookInfo (proposer blockNumberL2 : Z) (s : Storage) : Z * Z :=
  default (0, 0) (feeBook s !! feeBookKey keccak256 proposer blockNumberL2).

(** [function resetFeeBookInfo(address proposer, uint256 blockNumberL2)
      public onlyShield] *)
Definition resetFeeBookInfo (c : Call) (proposer blockNumberL2 : Z) (s : Storage)
  : result Storage :=
  bind (onlyShield c s) (fun _ =>
    Ok (setFeeBook (delete (feeBookKey keccak256 proposer blockNumberL2) (feeBook s)) s)).

(** [function isBlockReal(Block calldata b) public view returns (bytes32)] *)
Definition isBlockReal (b : Block) (s : Storage) : result Z :=
  let blockHash' := Utils_hashBlock b in
  bind (getBlockData (blockNumberL2 b) s) (fun stored =>
  bind (require (blockHash stored =? blockHash') "This block does not exist") (fun _ =>
  Ok blockHash')).

(** [function areBlockAndTransactionsReal(Block calldata b,
      Transaction[] calldata ts) public view returns (bytes32)] *)
Definition areBlockAndTransactionsReal (b : Block) (ts : list Transaction) (s : Storage)
  : result Z :=
  let blockHash' := Utils_hashBlock b in
  bind (getBlockData (blockNumberL2 b) s) (fun stored =>
  bind (require (blockHash stored =? blockHash') "This block does not exist") (fun _ =>
  let transactionHashesRoot' := Utils_hashTransactionHashes ts in
  bind (require (transactionHashesRoot b =? transactionHashesRoot')
          "Some of these transactions are not in this block") (fun _ =>
  Ok blockHash'))).

(** *** Popping what was proposed *)

(** What an accepted [proposeBlock] leaves behind, member by member. *)
Lemma proposeBlock_storage (c : Call) (b : Block) (t : list Transaction) (s s' : Storage) :
  proposeBlock keccak256 BLOCK_STAKE TRANSACTIONS_PER_BLOCK call_returndata
    shieldAddress_slot c b t s = Ok s' ->
  exists fees,
    feePayments t 0 0 = Ok fees
    /\ s' = mkStorage
              (blockHashes s ++ [mkBlockData (hashBlock keccak256 b) (block_timestamp c)])
              (proposers s)
              (<[feeBookKey keccak256 (proposer b) (blockNumberL2 b) := fees]> (feeBook s))
              (currentProposer s) (proposerStartBlock s) (proposersAddress s)
              (challengesAddress s) (shieldAddress s) (paused s)
              (events s ++ [BlockProposed]).
Proof.
  intros Hrun. pose proof Hrun as Hok. apply proposeBlock_ok in Hok as [_ Hhashes].
  unfold proposeBlock, require in Hrun.
  destruct (msg_sender c =? thisAddress (currentProposer s)); [|discriminate].
  destruct (negb (paused s)); [|discriminate].
  destruct (blockNumberL2 b =? Z.of_nat (length (blockHashes s))); [|discriminate].
  cbn [bind] in Hrun.
  destruct (if negb (length (blockHashes s) =? 0)%nat then _ else _) in Hrun;
    [|discriminate].
  cbn [bind] in Hrun.
  destruct (BLOCK_STAKE <=? msg_value c); [|discriminate].
  destruct (proposer b =? msg_sender c); [|discriminate].
  destruct (length t <=? TRANSACTIONS_PER_BLOCK)%nat; [|discriminate].
  cbn [bind] in Hrun.
  destruct (feePayments t 0 0) as [fees|] eqn:Efees; [|discriminate].
  cbn [bind] in Hrun.
  destruct (proposeBlockAssembly _ _ _ b t) as [h|] eqn:Easm; [|discriminate].
  cbn [bind] in Hrun. injection Hrun as <-. cbn [blockHashes] in Hhashes.
  apply app_inv_head in Hhashes. injection Hhashes as ->.
  exists fees. split; reflexivity.
Qed.

(** X1: [popBlockData] undoes [proposeBlock] on the block queue: called by
    the challenges contract right after an accepted block, it returns the
    entry that block pushed (its hash and the time of the call) and leaves
    the queue as it was before the block. *)
Theorem popBlockData_after_proposeBlock
    (c c' : Call) (b : Block) (t : list Transaction) (s s' : Storage) :
  proposeBlock keccak256 BLOCK_STAKE TRANSACTIONS_PER_BLOCK call_returndata
    shieldAddress_slot c b t s = Ok s' ->
  msg_sender c' = challengesAddress s ->
  exists s'',
    popBlockData c' s' = Ok (mkBlockData (hashBlock keccak256 b) (block_timestamp c), s'')
    /\ blockHashes s'' = blockHashes s
    /\ getNumberOfL2Blocks s'' = blockNumberL2 b.
Proof.
  intros Hrun Hsender. pose proof Hrun as Hg. apply proposeBlock_ok in Hg as [G _].
  apply proposeBlock_storage in Hrun as (fees & _ & ->).
  unfold popBlockData, onlyChallenger, require. cbn [challengesAddress blockHashes].
  rewrite Hsender, Z.eqb_refl. cbn [bind].
  rewrite length_app. cbn [length].
  replace (length (blockHashes s) + 1 =? 0)%nat with false
    by (symmetry; apply Nat.eqb_neq; lia).
  replace (length (blockHashes s) + 1 - 1)%nat with (length (blockHashes s)) by lia.
  rewrite lookup_app_r, Nat.sub_diag by lia. cbn [lookup list_lookup].
  eexists. split; [reflexivity|]. cbn [setBlockHashes blockHashes].
  rewrite take_app_length. split; [reflexivity|].
  unfold getNumberOfL2Blocks. cbn [blockHashes].
  rewrite ?take_app_length. symmetry. apply (g_blockNumber _ _ _ _ _ _ _ _ _ G).
Qed.

Lemma chained_take (n : nat) (bs : list Block) (hs : list BlockData) :
  chained keccak256 bs hs -> chained keccak256 (take n bs) (take n hs).
Proof.
  intros (Hlen & Hnum & Hlink). split; [|split].
  - rewrite !length_take. lia.
  - intros i b Hi. apply lookup_take_Some in Hi as [Hi Hlt].
    rewrite lookup_take_lt by exact Hlt. apply Hnum, Hi.
  - intros i p b Hp Hb. apply lookup_take_Some in Hp as [Hp _].
    apply lookup_take_Some in Hb as [Hb _]. eapply Hlink; eassumption.
Qed.

(** X2: a rollback keeps the chain: when the stored entries are the hashes
    of a chain of blocks, [popBlockData] by the challenges contract returns
    the entry of the last block and leaves the entries of the chain without
    it, still numbered without gaps and linked; on an empty queue the call
    reverts. *)
Theorem popBlockData_keeps_chain (c : Call) (s : Storage) (bs : list Block) :
  msg_sender c = challengesAddress s ->
  chained keccak256 bs (blockHashes s) ->
  match bs with
  | [] => reverts (popBlockData c s)
  | _ :: _ =>
      exists popped s' b,
        popBlockData c s = Ok (popped, s')
        /\ last bs = Some b
        /\ blockHash popped = hashBlock keccak256 b
        /\ chained keccak256 (take (length bs - 1) bs) (blockHashes s')
        /\ getNumberOfL2Blocks s' = blockNumberL2 b
  end.
Proof.
  intros Hsender Hchain. pose proof Hchain as (Hlen & Hnum & _).
  unfold popBlockData, onlyChallenger, require. rewrite Hsender, Z.eqb_refl.
  cbn [bind]. destruct bs as [|b0 bs'].
  - simpl in Hlen. rewrite <- Hlen. cbn. eexists. reflexivity.
  - set (bs := b0 :: bs') in *.
    assert (Hpos : (0 < length bs)%nat) by (unfold bs; simpl; lia).
    replace (length (blockHashes s) =? 0)%nat with false
      by (symmetry; apply Nat.eqb_neq; lia).
    destruct (lookup_lt_is_Some_2 bs (length bs - 1)) as [b Hb]; [lia|].
    destruct (Hnum _ _ Hb) as [Hn Hh].
    rewrite <- Hlen.
    destruct (blockHashes s !! (length bs - 1)%nat) as [popped|] eqn:Ep; [|discriminate].
    simpl in Hh. injection Hh as Hh.
    exists popped, (setBlockHashes (take (length bs - 1) (blockHashes s)) s), b.
    split; [reflexivity|]. split.
    { rewrite last_lookup. replace (Nat.pred (length bs)) with (length bs - 1)%nat by lia.
      exact Hb. }
    split; [exact Hh|]. cbn [setBlockHashes blockHashes].
    split; [apply chained_take, Hchain|].
    unfold getNumberOfL2Blocks. cbn [setBlockHashes blockHashes].
    rewrite length_take. lia.
Qed.

(** *** The fee book *)

Lemma feePayments_sums (ts : list Transaction) (eth matic : Z) (fees : Z * Z) :
  feePayments ts eth matic = Ok fees ->
  fees = (eth + depositFees ts, matic + otherFees ts).
Proof.
  revert eth matic. induction ts as [|t ts IH]; intros eth matic H; simpl in H.
  - injection H as <-. simpl. f_equal; lia.
  - simpl. destruct (transactionType t =? DEPOSIT).
    + destruct (eth + fee t <? WORD_MODULUS); [|discriminate].
      rewrite (IH _ _ H). f_equal; lia.
    + destruct (matic + fee t <? WORD_MODULUS); [|discriminate].
      rewrite (IH _ _ H). f_equal; lia.
Qed.

(** X3: after an accepted block, [getFeeBookInfo] for the block's proposer
    and number returns the sum of the fees of the block's deposits and the
    sum of the fees of its other transactions; [resetFeeBookInfo] by the
    shield contract then brings both back to zero. *)
Theorem feeBook_after_proposeBlock
    (c c' : Call) (b : Block) (t : list Transaction) (s s' : Storage) :
  proposeBlock keccak256 BLOCK_STAKE TRANSACTIONS_PER_BLOCK call_returndata
    shieldAddress_slot c b t s = Ok s' ->
  msg_sender c' = shieldAddress s ->
  getFeeBookInfo (proposer b) (blockNumberL2 b) s' = (depositFees t, otherFees t)
  /\ exists s'',
       resetFeeBookInfo c' (proposer b) (blockNumberL2 b) s' = Ok s''
       /\ getFeeBookInfo (proposer b) (blockNumberL2 b) s'' = (0, 0)
       /\ blockHashes s'' = blockHashes s'.
Proof.
  intros Hrun Hsender. apply proposeBlock_storage in Hrun as (fees & Hfees & ->).
  apply feePayments_sums in Hfees. simpl in Hfees. subst fees.
  unfold getFeeBookInfo, resetFeeBookInfo, onlyShield, require.
  cbn [feeBook shieldAddress]. rewrite lookup_insert_eq. split; [reflexivity|].
  rewrite Hsender, Z.eqb_refl. cbn [bind]. eexists. split; [reflexivity|].
  cbn [setFeeBook feeBook blockHashes]. rewrite lookup_delete_eq. split; reflexivity.
Qed.

(** *** Small blocks *)

Lemma getTreeHeight_small (n : nat) : (n <= 2)%nat -> getTreeHeight n = 1%nat.
Proof.
  intros H. destruct n as [|[|[|n]]]; [reflexivity|reflexivity|reflexivity|lia].
Qed.

(** X4: the root of a block without transactions is the zero constant,
    and the root of a block with one transaction is the node of that
    transaction's hash and zero: an accepted block with no transactions has
    [transactionHashesRoot] zero, and one with a single transaction has the
    node of its hash and the zero leaf. *)
Theorem proposeBlock_small_roots
    (c : Call) (b : Block) (t : list Transaction) (s s' : Storage) :
  proposeBlock keccak256 BLOCK_STAKE TRANSACTIONS_PER_BLOCK call_returndata
    shieldAddress_slot c b t s = Ok s' ->
  match t with
  | [] => transactionHashesRoot b = 0
  | [tx] => transactionHashesRoot b = node keccak256 (hashTransaction keccak256 tx) 0
  | [tx1; tx2] =>
      transactionHashesRoot b
      = node keccak256 (hashTransaction keccak256 tx1) (hashTransaction keccak256 tx2)
  | _ => (2 <= getTreeHeight (length t))%nat
  end.
Proof.
  intros Hrun. apply proposeBlock_ok in Hrun as [G _].
  pose proof (g_root _ _ _ _ _ _ _ _ _ G) as Hroot.
  destruct t as [|tx1 [|tx2 [|tx3 t']]]; try exact Hroot.
  pose proof (getTreeHeight_spec (length (tx1 :: tx2 :: tx3 :: t'))) as (H1 & Hfit & _).
  destruct (getTreeHeight (length (tx1 :: tx2 :: tx3 :: t'))) as [|[|h]]; [lia| |lia].
  simpl in Hfit. lia.
Qed.

(** *** Blocks that are real *)

(** X6: a block accepted by [proposeBlock] is real: provided
    [Utils.hashBlock] computes the digest of the block's slots that the
    assembly stores, [isBlockReal] returns the block's hash afterwards, and
    so does [areBlockAndTransactionsReal] for the transactions the block
    was proposed with when [Utils.hashTransactionHashes] computes the root
    the assembly checks; once the block is popped, [isBlockReal] reverts. *)
Theorem accepted_block_is_real
    (c c' : Call) (b : Block) (t : list Transaction) (s s' : Storage) :
  (forall b', Utils_hashBlock b' = hashBlock keccak256 b') ->
  Utils_hashTransactionHashes t
  = merkleRoot keccak256 (getTreeHeight (length t)) (leafSlots keccak256 t) ->
  proposeBlock keccak256 BLOCK_STAKE TRANSACTIONS_PER_BLOCK call_returndata
    shieldAddress_slot c b t s = Ok s' ->
  msg_sender c' = challengesAddress s ->
  isBlockReal b s' = Ok (hashBlock keccak256 b)
  /\ areBlockAndTransactionsReal b t s' = Ok (hashBlock keccak256 b)
  /\ exists popped s'',
       popBlockData c' s' = Ok (popped, s'')
       /\ isBlockReal b s'' = Revert "panic: index out of bounds".
Proof.
  intros Hutils Hroots Hrun Hsender.
  pose proof Hrun as Hg. apply proposeBlock_ok in Hg as [G Hhashes].
  destruct (popBlockData_after_proposeBlock c c' b t s s' Hrun Hsender)
    as (s'' & Hpop & Hq & _).
  pose proof (g_blockNumber _ _ _ _ _ _ _ _ _ G) as Hnum.
  assert (Hget : getBlockData (blockNumberL2 b) s'
                 = Ok (mkBlockData (hashBlock keccak256 b) (block_timestamp c))).
  { unfold getBlockData. rewrite Hhashes, length_app, Hnum. cbn [length].
    replace (0 <=? Z.of_nat (length (blockHashes s))) with true
      by (symmetry; apply Z.leb_le; lia).
    replace (Z.of_nat (length (blockHashes s))
             <? Z.of_nat (length (blockHashes s) + 1)) with true
      by (symmetry; apply Z.ltb_lt; lia).
    cbn [andb]. rewrite Nat2Z.id, lookup_app_r, Nat.sub_diag by lia. reflexivity. }
  split; [|split].
  - unfold isBlockReal. rewrite Hget. cbn [bind blockHash].
    rewrite Hutils, Z.eqb_refl. reflexivity.
  - unfold areBlockAndTransactionsReal. rewrite Hget. cbn [bind blockHash].
    rewrite Hutils, Z.eqb_refl. cbn [require bind].
    rewrite Hroots, <- (g_root _ _ _ _ _ _ _ _ _ G), Z.eqb_refl. reflexivity.
  - eexists _, s''. split; [exact Hpop|].
    unfold isBlockReal, getBlockData. rewrite Hq, Hnum.
    replace (Z.of_nat (length (blockHashes s)) <? Z.of_nat (length (blockHashes s)))
      with false by (symmetry; apply Z.ltb_ge; lia).
    rewrite andb_false_r. reflexivity.
Qed.

End Queries.

(** *** A concrete queue *)

Definition callChallenger : Call := mkCall 3000 0 500 12.

Definition callShield : Call := mkCall SHIELD 0 600 13.

(** A block without transactions on top of [block0]. *)
Definition blockEmpty : Block :=
  mkBlock 0 7 77 1 (hashBlock toyKeccak block0) 88 0.

Lemma accepted_block1 :
  exists s',
    proposeBlock toyKeccak 10 2 toyWorld toySlot call1 block1 [transferTx; depositTx]
      storage1 = Ok s'.
Proof. apply proposeBlock_complete, guards_block1. Defined.

Lemma popBlockData_after_proposeBlock_witness :
  exists s' s'',
    proposeBlock toyKeccak 10 2 toyWorld toySlot call1 block1 [transferTx; depositTx]
      storage1 = Ok s'
    /\ popBlockData callChallenger s'
       = Ok (mkBlockData (hashBlock toyKeccak block1) 200, s'')
    /\ blockHashes s'' = blockHashes storage1.
Proof.
  destruct accepted_block1 as [s' E].
  destruct (popBlockData_after_proposeBlock toyKeccak 10 2 toyWorld toySlot
              call1 callChallenger block1 [transferTx; depositTx] storage1 s' E eq_refl)
    as (s'' & Hpop & Hq & _).
  exists s', s''. split; [exact E|]. split; [exact Hpop|exact Hq].
Defined.

Lemma chained_storage1 : chained toyKeccak [block0] (blockHashes storage1).
Proof.
  apply (chained_snoc toyKeccak [] [] block0 100 (chained_nil toyKeccak)).
  - reflexivity.
  - intros H. exfalso. apply H. reflexivity.
Defined.

Lemma popBlockData_keeps_chain_witness :
  exists popped s',
    popBlockData callChallenger storage1 = Ok (popped, s')
    /\ blockHash popped = hashBlock toyKeccak block0
    /\ chained toyKeccak [] (blockHashes s').
Proof.
  destruct (popBlockData_keeps_chain toyKeccak callChallenger storage1 [block0]
              eq_refl chained_storage1) as (popped & s' & b & Hpop & Hlast & Hh & Hc & _).
  exists popped, s'. split; [exact Hpop|]. split; [|exact Hc].
  injection Hlast as <-. exact Hh.
Defined.

Lemma feeBook_after_proposeBlock_witness :
  exists s',
    proposeBlock toyKeccak 10 2 toyWorld toySlot call1 block1 [transferTx; depositTx]
      storage1 = Ok s'
    /\ getFeeBookInfo toyKeccak 7 1 s' = (2, 1).
Proof.
  destruct accepted_block1 as [s' E]. exists s'. split; [exact E|].
  destruct (feeBook_after_proposeBlock toyKeccak 10 2 toyWorld toySlot
              call1 callShield block1 [transferTx; depositTx] storage1 s' E eq_refl)
    as [Hinfo _].
  exact Hinfo.
Defined.

Lemma proposeBlock_small_roots_witness :
  exists s',
    proposeBlock toyKeccak 10 2 toyWorld toySlot call1 blockEmpty [] storage1 = Ok s'
    /\ transactionHashesRoot blockEmpty = 0.
Proof.
  assert (E : exists s', proposeBlock toyKeccak 10 2 toyWorld toySlot call1 blockEmpty []
                           storage1 = Ok s').
  { eexists. vm_compute. reflexivity. }
  destruct E as [s' E]. exists s'. split; [exact E|].
  exact (proposeBlock_small_roots toyKeccak 10 2 toyWorld toySlot
           call1 blockEmpty [] storage1 s' E).
Defined.

Lemma accepted_block_is_real_witness :
  exists s',
    proposeBlock toyKeccak 10 2 toyWorld toySlot call1 block1 [transferTx; depositTx]
      storage1 = Ok s'
    /\ isBlockReal (hashBlock toyKeccak) block1 s' = Ok (hashBlock toyKeccak block1).
Proof.
  destruct accepted_block1 as [s' E]. exists s'. split; [exact E|].
  destruct (accepted_block_is_real toyKeccak 10 2 toyWorld toySlot
              (hashBlock toyKeccak)
              (fun t => merkleRoot toyKeccak (getTreeHeight (length t))
                          (leafSlots toyKeccak t))
              call1 callChallenger block1 [transferTx; depositTx] storage1 s'
              (fun b => eq_refl) eq_refl E eq_refl) as [Hreal _].
  exact Hreal.
Defined.

End StateQueue.

(** ** State.sol: pending withdrawals and bonds *)

Module StateAccounts.
Import Evm StateContract StateQueue.
Local Open Scope Z_scope.

(** [struct TimeLockedBond], as State.sol builds and reads it:
    [TimeLockedBond(amount, time)]. *)
Record TimeLockedBond := mkTimeLockedBond { amount : Z; time : Z }.

(** The mappings of State.sol that [Storage] leaves out:
    [pendingWithdrawals] (ETH in slot 0, MATIC in slot 1), [bondAccounts]
    and [claimedBlockStakes]. *)
Record Accounts := mkAccounts {
  pendingWithdrawals : gmap Z (Z * Z);
  bondAccounts : gmap Z TimeLockedBond;
  claimedBlockStakes : gmap Z bool
}.

(** [pendingWithdrawals[addr]] *)
Definition pendingOf (a : Accounts) (addr : Z) : Z * Z :=
  default (0, 0) (pendingWithdrawals a !! addr).

(** [bondAccounts[addr]] *)
Definition getBondAccount (addr : Z) (a : Accounts) : TimeLockedBond :=
  default (mkTimeLockedBond 0 0) (bondAccounts a !! addr).

Definition setPending (addr : Z) (v : Z * Z) (a : Accounts) : Accounts :=
  mkAccounts (<[addr := v]> (pendingWithdrawals a)) (bondAccounts a) (claimedBlockStakes a).

Definition setBond (addr : Z) (v : TimeLockedBond) (a : Accounts) : Accounts :=
  mkAccounts (pendingWithdrawals a) (<[addr := v]> (bondAccounts a)) (claimedBlockStakes a).

(** A checked [uint256] addition and multiplication. *)
Definition checkedAdd (x y : Z) : result Z :=
  if x + y <? WORD_MODULUS then Ok (x + y) else Revert "panic: arithmetic overflow".

Definition checkedMul (x y : Z) : result Z :=
  if x * y <? WORD_MODULUS then Ok (x * y) else Revert "panic: arithmetic overflow".

(** [function addPendingWithdrawal(address addr, uint256 amountEth,
      uint256 amountMatic) public onlyRegistered] *)
Definition addPendingWithdrawal (c : Call) (addr amountEth amountMatic : Z)
    (s : Storage) (a : Accounts) : result Accounts :=
  bind (onlyRegistered c s) (fun _ =>
  bind (checkedAdd (fst (pendingOf a addr)) amountEth) (fun eth =>
  let a1 := setPending addr (eth, snd (pendingOf a addr)) a in
  bind (checkedAdd (snd (pendingOf a1 addr)) amountMatic) (fun matic =>
  Ok (setPending addr (fst (pendingOf a1 addr), matic) a1)))).

(** [function setBondAccount(address addr, uint256 amount) public onlyProposer] *)
Definition setBondAccount (c : Call) (addr amount : Z) (s : Storage) (a : Accounts)
  : result Accounts :=
  bind (onlyProposer c s) (fun _ => Ok (setBond addr (mkTimeLockedBond amount 0) a)).

(** [function updateBondAccountTime(address addr, uint256 time) public onlyProposer] *)
Definition updateBondAccountTime (c : Call) (addr time : Z) (s : Storage) (a : Accounts)
  : result Accounts :=
  bind (onlyProposer c s) (fun _ =>
    let bond := getBondAccount addr a in
    Ok (setBond addr (mkTimeLockedBond (amount bond) time) a)).

(** What [withdraw] sends out. *)
Inductive Payment :=
  | PayEth (to amount : Z)
  | PayMatic (to amount : Z).

Section Accounts.

Variable BLOCK_STAKE : Z.

(** Whether the ETH call to the recipient succeeds, and whether the MATIC
    [safeTransferFrom] goes through (it reverts otherwise). The recipient
    cannot change [pendingWithdrawals] while it is paid: [withdraw] is
    [nonReentrant] and the other writers are reserved to the registered
    contracts. *)
Variable ethCall : Z -> Z -> bool.
Variable maticTransfer : Z -> Z -> bool.

(** [function withdraw() external nonReentrant whenNotPaused] *)
Definition withdraw (c : Call) (s : Storage) (a : Accounts)
  : result (Accounts * list Payment) :=
  bind (require (negb (paused s)) "Pausable: paused") (fun _ =>
    let amountEth := fst (pendingOf a (msg_sender c)) in
    let amountMatic := snd (pendingOf a (msg_sender c)) in
    let a1 := setPending (msg_sender c) (0, 0) a in
  bind (if 0 <? amountEth
        then bind (require (ethCall (msg_sender c) amountEth) "Transfer failed.")
               (fun _ => Ok [PayEth (msg_sender c) amountEth])
        else Ok []) (fun paidEth =>
  bind (if 0 <? amountMatic
        then
          let a2 := setPending (msg_sender c) (fst (pendingOf a1 (msg_sender c)), 0) a1 in
          bind (require (maticTransfer (msg_sender c) amountMatic)
                  "SafeERC20: low-level call failed")
            (fun _ => Ok (a2, [PayMatic (msg_sender c) amountMatic]))
        else Ok (a1, [])) (fun r =>
  Ok (fst r, paidEth ++ snd r)))).

(** [function rewardChallenger(address challengerAddr, address proposer,
      uint256 numRemoved) public onlyChallenger] *)
Definition rewardChallenger (c : Call) (challengerAddr proposer numRemoved : Z)
    (s : Storage) (a : Accounts) : result (Storage * Accounts) :=
  bind (onlyChallenger c s) (fun _ =>
  bind (removeProposer c proposer s) (fun s1 =>
    let bond := getBondAccount proposer a in
    let a1 := setBond proposer (mkTimeLockedBond 0 0) a in
  bind (checkedMul numRemoved BLOCK_STAKE) (fun stakes =>
  bind (checkedAdd (amount bond) stakes) (fun reward =>
  bind (checkedAdd (fst (pendingOf a1 challengerAddr)) reward) (fun eth =>
  Ok (s1, setPending challengerAddr (eth, snd (pendingOf a1 challengerAddr)) a1)))))).


(** X8: [rewardChallenger], called by the challenges contract, removes the
    proposer as [removeProposer] does, empties the proposer's bond and adds
    the bond's amount and [numRemoved] block stakes to the ETH pending for
    the challenger, whose pending MATIC and everyone else's pending amounts
    stay as they were; the additions are checked, so the call goes through
    when the sums stay below 2^256. *)
Theorem rewardChallenger_credits
    (c : Call) (challengerAddr proposer numRemoved : Z) (s : Storage) (a : Accounts) :
  msg_sender c = challengesAddress s ->
  let reward := amount (getBondAccount proposer a) + numRemoved * BLOCK_STAKE in
  numRemoved * BLOCK_STAKE < WORD_MODULUS ->
  reward < WORD_MODULUS ->
  fst (pendingOf a challengerAddr) + reward < WORD_MODULUS ->
  exists s' a',
    rewardChallenger c challengerAddr proposer numRemoved s a = Ok (s', a')
    /\ removeProposer c proposer s = Ok s'
    /\ getBondAccount proposer a' = mkTimeLockedBond 0 0
    /\ pendingOf a' challengerAddr
       = (fst (pendingOf a challengerAddr) + reward, snd (pendingOf a challengerAddr))
    /\ (forall other, other <> challengerAddr -> pendingOf a' other = pendingOf a other)
    /\ (forall other, other <> proposer ->
          getBondAccount other a' = getBondAccount other a).
Proof.
  intros Hsender reward Hmul Hreward Hsum.
  unfold rewardChallenger, onlyChallenger, require. rewrite Hsender, Z.eqb_refl.
  cbn [bind].
  assert (Hreg : onlyRegistered c s = Ok tt).
  { unfold onlyRegistered, require. rewrite Hsender, Z.eqb_refl, orb_true_r. reflexivity. }
  unfold removeProposer. rewrite Hreg. cbn [bind].
  unfold checkedMul, checkedAdd.
  rewrite (proj2 (Z.ltb_lt _ _) Hmul). cbn [bind].
  fold reward. rewrite (proj2 (Z.ltb_lt _ _) Hreward). cbn [bind].
  assert (Hp : pendingOf (setBond proposer (mkTimeLockedBond 0 0) a) challengerAddr
               = pendingOf a challengerAddr) by reflexivity.
  rewrite Hp, (proj2 (Z.ltb_lt _ _) Hsum). cbn [bind].
  eexists _, _. split; [reflexivity|]. split; [reflexivity|].
  split; [|split; [|split]].
  - unfold getBondAccount. cbn. rewrite lookup_insert_eq. reflexivity.
  - unfold pendingOf at 1. cbn. rewrite lookup_insert_eq. reflexivity.
  - intros other Hne. unfold pendingOf. cbn.
    rewrite lookup_insert_ne by congruence. reflexivity.
  - intros other Hne. unfold getBondAccount. cbn.
    rewrite lookup_insert_ne by congruence. reflexivity.
Qed.

End Accounts.

(** *** Concrete accounts *)

Definition accountsBob : Accounts :=
  mkAccounts {[ 42 := (5, 0) ]} {[ 8 := mkTimeLockedBond 100 0 ]} ∅.


Definition callChallenges : Call := mkCall 3000 0 500 12.



Lemma rewardChallenger_credits_witness :
  exists s' a',
    rewardChallenger 10 callChallenges 42 8 3 storageRing accountsBob = Ok (s', a')
    /\ pendingOf a' 42 = (135, 0).
Proof.
  destruct (rewardChallenger_credits 10 callChallenges 42 8 3 storageRing accountsBob)
    as (s' & a' & Hrun & _ & _ & Hpending & _).
  - reflexivity.
  - reflexivity.
  - reflexivity.
  - reflexivity.
  - exists s', a'. split; [exact Hrun|exact Hpending].
Defined.

End StateAccounts.

(** ** State.sol: the ring of proposers *)

Module ProposerRing.
Import Evm StateContract.
Local Open Scope Z_scope.

(** [proposers[a].nextAddress] and [proposers[a].previousAddress] *)
Definition nextOf (m : gmap Z LinkedAddress) (a : Z) : Z :=
  nextAddress (proposerAt m a).

Definition previousOf (m : gmap Z LinkedAddress) (a : Z) : Z :=
  previousAddress (proposerAt m a).

(** The registered proposers form a doubly linked ring: the neighbours of a
    registered proposer are registered, and each names it back. *)
Definition linked (m : gmap Z LinkedAddress) : Prop :=
  forall a, isProposer m a ->
    isProposer m (nextOf m a) /\ isProposer m (previousOf m a)
    /\ previousOf m (nextOf m a) = a /\ nextOf m (previousOf m a) = a.

(** The records [removeProposer] leaves, address by address. *)
Definition afterRemoval (m : gmap Z LinkedAddress) (p a : Z) : LinkedAddress :=
  let q := previousOf m p in
  let n := nextOf m p in
  if decide (a = n) then
    mkLinkedAddress (thisAddress (proposerAt m n)) (thisAddress (proposerAt m q))
      (if decide (q = n) then thisAddress (proposerAt m n) else nextOf m n)
      (url (proposerAt m n))
  else if decide (a = q) then
    mkLinkedAddress (thisAddress (proposerAt m q)) (previousOf m q)
      (thisAddress (proposerAt m n)) (url (proposerAt m q))
  else if decide (a = p) then zeroLinkedAddress
  else proposerAt m a.

Lemma removeProposer_records (c : Call) (p : Z) (s s' : Storage) (a : Z) :
  previousOf (proposers s) p <> p -> nextOf (proposers s) p <> p ->
  removeProposer c p s = Ok s' ->
  proposerAt (proposers s') a = afterRemoval (proposers s) p a.
Proof.
  unfold previousOf, nextOf, afterRemoval, removeProposer, previousOf, nextOf.
  intros Hq Hn Hrun. destruct (onlyRegistered c s); [|discriminate].
  cbn [bind] in Hrun. injection Hrun as <-. cbn [proposers].
  set (q := previousAddress (proposerAt (proposers s) p)) in *.
  set (n := nextAddress (proposerAt (proposers s) p)) in *.
  unfold proposerAt.
  destruct (decide (a = n)) as [->|Han].
  - rewrite lookup_insert_eq. cbn.
    destruct (decide (q = n)) as [Hqn|Hqn].
    + rewrite Hqn. map_lookups. reflexivity.
    + map_lookups. reflexivity.
  - rewrite lookup_insert_ne by congruence.
    destruct (decide (a = q)) as [->|Haq].
    + map_lookups. reflexivity.
    + rewrite lookup_insert_ne by congruence.
      destruct (decide (a = p)) as [->|Hap].
      * rewrite lookup_delete_eq. reflexivity.
      * rewrite lookup_delete_ne by congruence. reflexivity.
Qed.


Section Removal.

Variable m : gmap Z LinkedAddress.
Variable p : Z.
Hypothesis Hlinked : linked m.
Hypothesis Hp : isProposer m p.
Hypothesis Hnext : nextOf m p <> p.

Let q := previousOf m p.
Let n := nextOf m p.
Let g := afterRemoval m p.

Lemma ring_facts :
  isProposer m n /\ isProposer m q /\ previousOf m n = p /\ nextOf m q = p
  /\ q <> p /\ p <> 0.
Proof using Hlinked Hp Hnext.
  destruct (Hlinked p Hp) as (Hn & Hq & Hpn & Hnq). fold q n in Hn, Hq, Hpn, Hnq.
  repeat split; try apply Hn; try apply Hq; try assumption; try apply Hp.
  intros E. apply Hnext. fold n. rewrite E in Hnq. congruence.
Qed.

Lemma g_next : thisAddress (g n) = n /\ previousAddress (g n) = q
  /\ nextAddress (g n) = (if decide (q = n) then n else nextOf m n).
Proof using Hlinked Hp Hnext.
  destruct ring_facts as ([_ Hn] & [_ Hq] & _).
  unfold g, afterRemoval. fold q n. rewrite decide_True by reflexivity. cbn.
  rewrite Hn, Hq. repeat split.
Qed.

Lemma g_previous : q <> n ->
  thisAddress (g q) = q /\ previousAddress (g q) = previousOf m q
  /\ nextAddress (g q) = n.
Proof using Hlinked Hp Hnext.
  intros Hqn. destruct ring_facts as ([_ Hn] & [_ Hq] & _).
  unfold g, afterRemoval. fold q n. rewrite decide_False by exact Hqn.
  rewrite decide_True by reflexivity. cbn. rewrite Hn, Hq. repeat split.
Qed.

Lemma g_removed : g p = zeroLinkedAddress.
Proof using Hlinked Hp Hnext.
  destruct ring_facts as (_ & _ & _ & _ & Hqp & _).
  unfold g, afterRemoval. fold q n.
  rewrite decide_False by (intros E; apply Hnext; fold n; congruence).
  rewrite decide_False by congruence. rewrite decide_True by reflexivity. reflexivity.
Qed.

Lemma g_other (a : Z) : a <> n -> a <> q -> a <> p -> g a = proposerAt m a.
Proof using Type.
  intros Hn Hq Hpa. unfold g, afterRemoval. fold q n.
  rewrite !decide_False by assumption. reflexivity.
Qed.

(** Who is registered after the removal: everyone but [p]. *)
Lemma g_registered (a : Z) :
  a <> 0 -> (thisAddress (g a) = a <-> a <> p /\ thisAddress (proposerAt m a) = a).
Proof using Hlinked Hp Hnext.
  intros Ha0. destruct ring_facts as ([_ Hn] & [_ Hq] & _ & _ & Hqp & Hp0).
  destruct (decide (a = n)) as [->|Han].
  { destruct g_next as (E & _). rewrite E. split; [intros _; split; [|exact Hn]|reflexivity].
    intros E'. apply Hnext. fold n. exact E'. }
  destruct (decide (a = q)) as [->|Haq].
  { destruct (g_previous Han) as (E & _). rewrite E.
    split; [intros _; split; assumption|reflexivity]. }
  destruct (decide (a = p)) as [->|Hap].
  { rewrite g_removed. cbn. split; [congruence|intros [H _]; contradiction]. }
  rewrite g_other by assumption. split; [intros H; split; assumption|intros [_ H]; exact H].
Qed.

Lemma g_linked (a : Z) :
  a <> 0 -> thisAddress (g a) = a ->
  (nextAddress (g a) <> 0 /\ thisAddress (g (nextAddress (g a))) = nextAddress (g a))
  /\ (previousAddress (g a) <> 0
      /\ thisAddress (g (previousAddress (g a))) = previousAddress (g a))
  /\ previousAddress (g (nextAddress (g a))) = a
  /\ nextAddress (g (previousAddress (g a))) = a.
Proof using Hlinked Hp Hnext.
  intros Ha0 Hathis.
  destruct ring_facts as (Hn & Hq & Hpn & Hnq & Hqp & Hp0).
  assert (Hnp : n <> p) by exact Hnext.
  apply g_registered in Hathis as [Hap Hreg]; [|exact Ha0].
  assert (Ha : isProposer m a) by (split; assumption).
  destruct (Hlinked a Ha) as (Hax & Hay & Hxa & Hya).
  set (x := nextOf m a) in *. set (y := previousOf m a) in *.
  (* the neighbours of a registered proposer other than p are not p unless
     it is q or n *)
  assert (Hreg' : forall b, isProposer m b -> b <> p ->
            b <> 0 /\ thisAddress (g b) = b).
  { intros b [Hb0 Hb] Hbp. split; [exact Hb0|]. apply g_registered; [exact Hb0|].
    split; assumption. }
  destruct (decide (a = n)) as [->|Han].
  - destruct g_next as (_ & Eprev & Enext). rewrite Eprev, Enext.
    destruct (decide (q = n)) as [Hqn|Hqn].
    + destruct g_next as (_ & Eprev' & Enext'). rewrite decide_True in Enext' by exact Hqn.
      rewrite Hqn. rewrite Eprev', Enext'. rewrite Hqn. 
      destruct (Hreg' n Hn Hnp). repeat split; assumption.
    + destruct (g_previous Hqn) as (_ & Eqprev & Eqnext).
      assert (Hxp : x <> p).
      { intros E. unfold x in Hxa. fold x in Hxa. rewrite E in Hxa.
        fold q in Hxa. fold (previousOf m p) in Hxa. congruence. }
      assert (Hxn : x <> n).
      { intros E. rewrite E in Hxa. congruence. }
      split; [apply Hreg'; assumption|]. split; [apply Hreg'; assumption|].
      split; [|exact Eqnext].
      destruct (decide (x = q)) as [Exq|Exq].
      * fold x. rewrite Exq, Eqprev. rewrite <- Exq. exact Hxa.
      * fold x. rewrite g_other by assumption. exact Hxa.
  - destruct (decide (a = q)) as [->|Haq].
    + destruct (g_previous Han) as (_ & Eprev & Enext). rewrite Eprev, Enext.
      destruct g_next as (_ & Enprev & Ennext).
      rewrite decide_False in Ennext by congruence.
      assert (Hyp : y <> p).
      { intros E. rewrite E in Hya. fold n in Hya. congruence. }
      assert (Hyq : y <> q).
      { intros E. rewrite E in Hya. congruence. }
      split; [apply Hreg'; assumption|]. split; [apply Hreg'; assumption|].
      split; [exact Enprev|].
      destruct (decide (y = n)) as [Eyn|Eyn].
      * fold y. rewrite Eyn, Ennext. rewrite <- Eyn. exact Hya.
      * fold y. rewrite g_other by assumption. exact Hya.
    + rewrite (g_other a) by assumption.
      change (nextAddress (proposerAt m a)) with x.
      change (previousAddress (proposerAt m a)) with y.
      assert (Hxp : x <> p).
      { intros E. rewrite E in Hxa. fold q in Hxa. congruence. }
      assert (Hyp : y <> p).
      { intros E. rewrite E in Hya. fold n in Hya. congruence. }
      assert (Hxn : x <> n).
      { intros E. rewrite E in Hxa. congruence. }
      assert (Hyq : y <> q).
      { intros E. rewrite E in Hya. congruence. }
      split; [apply Hreg'; assumption|]. split; [apply Hreg'; assumption|].
      split.
      * destruct (decide (x = q)) as [Exq|Exq].
        -- assert (Hqn : q <> n) by congruence.
           destruct (g_previous Hqn) as (_ & Eqprev & _).
           rewrite Exq, Eqprev. rewrite <- Exq. exact Hxa.
        -- rewrite g_other by assumption. exact Hxa.
      * destruct (decide (y = n)) as [Eyn|Eyn].
        -- destruct g_next as (_ & _ & Ennext).
           rewrite decide_False in Ennext by congruence.
           rewrite Eyn, Ennext. rewrite <- Eyn. exact Hya.
        -- rewrite g_other by assumption. exact Hya.
Qed.

End Removal.


(** X5: removing a registered proposer that is not alone keeps the ring:
    when the registered proposers are doubly linked, [removeProposer]
    leaves every other registered proposer registered, the removed one no
    longer registered, the others still doubly linked, and a registered
    proposer current. *)
Theorem removeProposer_keeps_ring (c : Call) (p : Z) (s : Storage) :
  onlyRegistered c s = Ok tt ->
  linked (proposers s) ->
  isProposer (proposers s) p ->
  nextOf (proposers s) p <> p ->
  exists s',
    removeProposer c p s = Ok s'
    /\ linked (proposers s')
    /\ ~ isProposer (proposers s') p
    /\ (forall a, a <> p -> isProposer (proposers s') a <-> isProposer (proposers s) a)
    /\ currentIsProposer s'
    /\ blockHashes s' = blockHashes s.
Proof.
  intros Hreg Hlinked Hp Hnext.
  destruct (ring_facts (proposers s) p Hlinked Hp Hnext)
    as (Hn & Hq & _ & _ & Hqp & Hp0).
  assert (Hrun : exists s', removeProposer c p s = Ok s'
                   /\ currentProposer s' = proposerAt (proposers s') (nextOf (proposers s) p)
                   /\ blockHashes s' = blockHashes s).
  { unfold removeProposer. rewrite Hreg. cbn [bind]. eexists.
    split; [reflexivity|]. split; reflexivity. }
  destruct Hrun as (s' & Hrun & Hcur & Hblocks). exists s'. split; [exact Hrun|].
  pose proof (fun a => removeProposer_records c p s s' a Hqp Hnext Hrun) as Hrec.
  assert (Hiff : forall a, isProposer (proposers s') a
                   <-> a <> p /\ isProposer (proposers s) a).
  { intros a. unfold isProposer. rewrite Hrec. split.
    - intros [Ha0 Ha]. apply (g_registered _ _ Hlinked Hp Hnext) in Ha; [|exact Ha0].
      tauto.
    - intros (Hap & Ha0 & Ha). split; [exact Ha0|].
      apply (g_registered _ _ Hlinked Hp Hnext); [exact Ha0|]. tauto. }
  split; [|split; [|split; [|split]]].
  - intros a [Ha0 Ha]. rewrite Hrec in Ha.
    destruct (g_linked _ _ Hlinked Hp Hnext a Ha0 Ha) as (Hx & Hy & Hxa & Hya).
    unfold isProposer, nextOf, previousOf. repeat rewrite Hrec.
    repeat split; solve [apply Hx | apply Hy | exact Hxa | exact Hya].
  - intros H. apply Hiff in H as [H _]. apply H. reflexivity.
  - intros a Hap. rewrite Hiff. tauto.
  - unfold currentIsProposer. rewrite Hcur.
    destruct (g_next _ _ Hlinked Hp Hnext) as (Ethis & _).
    rewrite Hrec, Ethis. apply Hiff. split; [exact Hnext|exact Hn].
  - exact Hblocks.
Qed.

Lemma linked_storageRing : linked (proposers storageRing).
Proof.
  intros a [Ha0 Ha]. unfold isProposer, nextOf, previousOf, proposerAt in *.
  cbn [proposers storageRing] in *.
  destruct (decide (a = 7)) as [->|H7]; [vm_compute; intuition discriminate|].
  destruct (decide (a = 8)) as [->|H8]; [vm_compute; intuition discriminate|].
  destruct (decide (a = 9)) as [->|H9]; [vm_compute; intuition discriminate|].
  exfalso. rewrite !lookup_insert_ne, lookup_singleton_ne in Ha by congruence.
  cbn in Ha. congruence.
Defined.

Lemma removeProposer_keeps_ring_witness :
  exists s',
    removeProposer callProposers 8 storageRing = Ok s'
    /\ linked (proposers s')
    /\ isProposer (proposers s') 7 /\ isProposer (proposers s') 9.
Proof.
  destruct (removeProposer_keeps_ring callProposers 8 storageRing)
    as (s' & Hrun & Hlinked & _ & Hkept & _).
  - reflexivity.
  - exact linked_storageRing.
  - split; [discriminate|reflexivity].
  - vm_compute. discriminate.
  - exists s'. split; [exact Hrun|]. split; [exact Hlinked|].
    split; apply Hkept; try discriminate; split; try discriminate; reflexivity.
Defined.

End ProposerRing.

(** ** transaction.mjs: the array test, the struct sent to the chain and
       the constructor's edges *)

Module TransactionStruct.
Import TransactionClass.

(** What [buildSolidityStruct] returns: the transaction without the
    members that are not sent to the blockchain. *)
Record SolidityStruct := mkSolidityStruct {
  s_value : JsValue;
  s_fee : JsValue;
  s_transactionType : JsValue;
  s_tokenType : JsValue;
  s_historicRootBlockNumberL2 : list JsValue;
  s_tokenId : JsValue;
  s_ercAddress : JsValue;
  s_recipientAddress : JsValue;
  s_commitments : list JsValue;
  s_nullifiers : list JsValue;
  s_compressedSecrets : list JsValue;
  s_proof : list JsValue
}.

(** The members of the struct, in the order of its declaration. *)
Definition membersOf (st : SolidityStruct) : list Field :=
  [Scalar (s_value st); Scalar (s_fee st); Scalar (s_transactionType st);
   Scalar (s_tokenType st); Array (s_historicRootBlockNumberL2 st);
   Scalar (s_tokenId st); Scalar (s_ercAddress st); Scalar (s_recipientAddress st);
   Array (s_commitments st); Array (s_nullifiers st); Array (s_compressedSecrets st);
   Array (s_proof st)].


Section Struct.

Variable ProofObject : Type.
Variable flatProof : ProofObject -> outcome (list JsValue).
Variable compressProof : list JsValue -> outcome (list JsValue).
Variable hex32 : JsValue -> outcome string.
Variable encodeParameters : list Field -> outcome (list Z).
Variable soliditySha3 : list Z -> string.

(** [static buildSolidityStruct(transaction)] *)
Definition buildSolidityStruct (transaction : TransactionObject) : outcome SolidityStruct :=
  andThen (if arrayEquality (proof transaction) (replicate 8 (JNumber 0))
           then Returned (replicate 4 (JNumber 0))
           else compressProof (proof transaction)) (fun proof' =>
  Returned (mkSolidityStruct (value transaction) (fee transaction)
              (transactionType transaction) (tokenType transaction)
              (historicRootBlockNumberL2 transaction) (tokenId transaction)
              (ercAddress transaction) (recipientAddress transaction)
              (commitments transaction) (nullifiers transaction)
              (compressedSecrets transaction) proof')).

(** The step of the proposer's [/encode] route that gives a submitted
    transaction the hash computed from its members:
    [transaction.transactionHash = Transaction.calcHash(transaction)]. *)
Definition rehash (t : TransactionObject) : outcome TransactionObject :=
  andThen (calcHash compressProof encodeParameters soliditySha3 t) (fun h =>
  Returned (setTransactionHash (JString h) t)).

(** The route maps the step over the submitted transactions; the objects
    are changed in place, so the hashes it then reads off [transactions] for
    the block are those of the changed objects. *)
Definition rehashAll (transactions : list TransactionObject)
  : outcome (list TransactionObject * list JsValue) :=
  andThen (mapOutcome rehash transactions) (fun newTransactions =>
  Returned (newTransactions, map transactionHash newTransactions)).

Lemma existsb_replicate (a v : JsValue) (n : nat) :
  existsb (strictEquals a) (replicate n v) = negb (n =? 0)%nat && bool_decide (a = v).
Proof.
  induction n as [|n IH]; [reflexivity|]. cbn [replicate existsb]. rewrite IH.
  unfold strictEquals. destruct (bool_decide (a = v)); [reflexivity|].
  rewrite andb_false_r. reflexivity.
Qed.

Lemma forallb_in_replicate (xs : list JsValue) (k : nat) (v : JsValue) :
  forallb (fun a => existsb (strictEquals a) (replicate (S k) v)) xs = true <->
  xs = replicate (length xs) v.
Proof.
  induction xs as [|x xs IH]; [split; reflexivity|].
  cbn [forallb length]. rewrite andb_true_iff, IH, existsb_replicate.
  cbn [Nat.eqb negb andb]. rewrite bool_decide_eq_true.
  change (replicate (S (length xs)) v) with (v :: replicate (length xs) v).
  split.
  - intros [-> <-]. reflexivity.
  - intros H. injection H as -> H. split; [reflexivity|exact H].
Qed.

(** X9: [arrayEquality] tests the lengths and that every element of the
    first array occurs in the second, which is not equality: it accepts
    [a, a] against [a, b]. Against an array of [n] equal values, the way
    [keccak] and [buildSolidityStruct] call it, it holds exactly of that
    array. *)
Theorem arrayEquality_constant (xs : list JsValue) (n : nat) (v : JsValue) :
  (arrayEquality xs (replicate n v) = true <-> xs = replicate n v)
  /\ (forall a b, arrayEquality [a; a] [a; b] = true).
Proof.
  split.
  - unfold arrayEquality. rewrite length_replicate.
    destruct (length xs =? n)%nat eqn:E.
    + apply Nat.eqb_eq in E. subst n. destruct xs as [|x xs]; [split; reflexivity|].
      cbn [length]. rewrite forallb_in_replicate. cbn [length]. reflexivity.
    + apply Nat.eqb_neq in E. split; [discriminate|].
      intros ->. rewrite length_replicate in E. contradiction.
  - intros a b. unfold arrayEquality, strictEquals. cbn.
    rewrite bool_decide_eq_true_2 by reflexivity. reflexivity.
Qed.

Ltac step_returned H :=
  match type of H with
  | andThen ?o _ = Returned _ =>
      let E := fresh "E" in
      destruct o eqn:E; [cbn [andThen] in H|discriminate H]
  end.






(** The members of a constructed transaction that the theorems below
    read. *)
Lemma construct_members (a : ConstructorArguments ProofObject) (tx : TransactionObject) :
  construct ProofObject flatProof compressProof hex32 encodeParameters soliditySha3 a
  = Returned tx ->
  exists flat,
    match a_proof ProofObject a with
    | None => Returned (replicate 8 (JNumber 0))
    | Some p => flatProof p
    end = Returned flat
    /\ ((strictEquals (a_transactionType ProofObject a) (JNumber 0)
         || strictEquals (a_transactionType ProofObject a) (JNumber 2))
        && strictEquals (TOKEN_TYPES (a_tokenType ProofObject a)) JUndefined = false)
    /\ hexOf hex32 (jsOr (TOKEN_TYPES (a_tokenType ProofObject a)) (JNumber 0))
       = Returned (tokenType tx)
    /\ hexAll hex32 flat = Returned (proof tx)
    /\ keccak compressProof encodeParameters soliditySha3 tx
       = Returned (match transactionHash tx with JString h => h | _ => "" end)
    /\ (exists h, transactionHash tx = JString h).
Proof.
  unfold construct. intros H. step_returned H.
  destruct (_ && _) eqn:Eguard in H; [discriminate|].
  do 13 step_returned H. injection H as <-.
  eexists. split; [reflexivity|]. split; [exact Eguard|].
  cbn. repeat split; try assumption. eexists. reflexivity.
Qed.

Lemma hexAll_strings (vs vs' : list JsValue) :
  hexAll hex32 vs = Returned vs' -> Forall (fun v => exists s, v = JString s) vs'.
Proof.
  intros H. apply hexAll_lookup in H as [Hlen Hall].
  apply Forall_forall. intros v Hv. apply list_elem_of_lookup in Hv as [i Hi].
  destruct (lookup_lt_is_Some_2 vs i) as [x Hx].
  { rewrite <- Hlen. eapply lookup_lt_Some, Hi. }
  destruct (Hall i x Hx) as (s0 & _ & Hs). rewrite Hi in Hs. injection Hs as ->.
  eexists. reflexivity.
Qed.

(** X10: the hash of a constructed transaction always goes through
    [compressProof], also when no proof was given: the constructor turns
    the eight zeros of a missing proof into hex strings, and the test for
    the all-zero proof in [keccak] compares with the number 0, so it fails
    on every constructed transaction. *)
Theorem construct_hash_compresses
    (a : ConstructorArguments ProofObject) (tx : TransactionObject) :
  construct ProofObject flatProof compressProof hex32 encodeParameters soliditySha3 a
  = Returned tx ->
  arrayEquality (proof tx) (replicate 8 (JNumber 0)) = false
  /\ exists proof' encoded,
       compressProof (proof tx) = Returned proof'
       /\ encodeParameters (transactionTuple tx proof') = Returned encoded
       /\ transactionHash tx = JString (soliditySha3 encoded).
Proof.
  intros H. apply construct_members in H
    as (flat & _ & _ & _ & Hproof & Hk & (h & Hh)).
  assert (Hne : arrayEquality (proof tx) (replicate 8 (JNumber 0)) = false).
  { destruct (arrayEquality (proof tx) (replicate 8 (JNumber 0))) eqn:E; [|reflexivity].
    apply (proj1 (arrayEquality_constant _ _ _)) in E.
    apply hexAll_strings in Hproof. rewrite E in Hproof.
    apply Forall_cons in Hproof as [[s0 Hs] _]. discriminate. }
  split; [exact Hne|]. rewrite Hh in Hk.
  apply keccak_tuple in Hk as (proof' & encoded & Hp & Henc & ->).
  rewrite Hne in Hp. exists proof', encoded. split; [exact Hp|].
  split; [exact Henc|exact Hh].
Qed.

(** The digest is taken over the struct that is sent to the chain:
    [keccak] of a transaction is the digest of the encoded members of
    [buildSolidityStruct] of it, and throws when that throws; the struct
    leaves out the hash and the members the handlers add, so changing those
    changes neither. *)
Theorem keccak_of_buildSolidityStruct (t : TransactionObject) :
  keccak compressProof encodeParameters soliditySha3 t
  = andThen (buildSolidityStruct t) (fun st =>
    andThen (encodeParameters (membersOf st)) (fun encoded =>
    Returned (soliditySha3 encoded)))
  /\ forall h m bn l1 ch,
       buildSolidityStruct
         (mkTransactionObject (value t) (fee t) (transactionType t) (tokenType t)
            (historicRootBlockNumberL2 t) (tokenId t) (ercAddress t)
            (recipientAddress t) (commitments t) (nullifiers t) (compressedSecrets t)
            (proof t) h m bn l1 ch)
       = buildSolidityStruct t.
Proof.
  split; [|reflexivity].
  unfold keccak, buildSolidityStruct.
  destruct (arrayEquality (proof t) (replicate 8 (JNumber 0))).
  - reflexivity.
  - destruct (compressProof (proof t)); reflexivity.
Qed.


Lemma mapOutcome_Forall2 {A B} (f : A -> outcome B) (l : list A) (l' : list B) :
  mapOutcome f l = Returned l' -> Forall2 (fun x y => f x = Returned y) l l'.
Proof.
  revert l'. induction l as [|x l IH]; intros l' H; simpl in H.
  - injection H as <-. constructor.
  - destruct (f x) as [y|] eqn:Ex; [|discriminate]. simpl in H.
    destruct (mapOutcome f l) as [ys|]; [|discriminate]. simpl in H.
    injection H as <-. constructor; [exact Ex|]. apply IH. reflexivity.
Qed.

(** X12: the re-hash of the [/encode] route makes every submitted
    transaction pass [checkHash], whatever hash it was submitted with: the
    preimage members are kept, a second re-hash changes nothing, and the
    hashes taken for the block are the recomputed ones. *)
Theorem rehashAll_checks
    (transactions newTransactions : list TransactionObject) (hashes : list JsValue) :
  rehashAll transactions = Returned (newTransactions, hashes) ->
  length newTransactions = length transactions
  /\ hashes = map transactionHash newTransactions
  /\ forall i t, newTransactions !! i = Some t ->
       checkHash compressProof encodeParameters soliditySha3 t = Returned true
       /\ rehash t = Returned t
       /\ exists t0, transactions !! i = Some t0
                      /\ buildSolidityStruct t = buildSolidityStruct t0
                      /\ calcHash compressProof encodeParameters soliditySha3 t0
                         = Returned (match transactionHash t with
                                     | JString h => h
                                     | _ => ""
                                     end).
Proof.
  unfold rehashAll. intros H.
  destruct (mapOutcome rehash transactions) as [ts|] eqn:E; [|discriminate].
  cbn [andThen] in H. injection H as <- <-.
  apply mapOutcome_Forall2 in E. split; [symmetry; eapply Forall2_length, E|].
  split; [reflexivity|]. intros i t Hi.
  destruct (Forall2_lookup_r _ _ _ _ _ E Hi) as (t0 & Ht0 & Hre).
  unfold rehash, calcHash in Hre.
  destruct (keccak compressProof encodeParameters soliditySha3 t0) as [h|] eqn:Ek;
    [|discriminate].
  cbn [andThen] in Hre. injection Hre as <-.
  split; [|split].
  - apply checkHash_true. exists h. rewrite keccak_setTransactionHash.
    split; [exact Ek|reflexivity].
  - unfold rehash, calcHash. rewrite keccak_setTransactionHash, Ek. reflexivity.
  - exists t0. split; [exact Ht0|]. split; [reflexivity|]. exact Ek.
Qed.

End Struct.

(** *** Concrete transactions *)

Lemma construct_hash_compresses_witness :
  arrayEquality (proof builtTransaction) (replicate 8 (JNumber 0)) = false.
Proof.
  apply (construct_hash_compresses (list JsValue) toyFlatProof toyCompress toyHex
           toyEncode toySha3 withdrawArguments builtTransaction eq_refl).
Defined.


Lemma rehashAll_checks_witness :
  exists t,
    rehashAll toyCompress toyEncode toySha3
      [setTransactionHash (JString "0xforged") builtTransaction]
    = Returned ([t], [transactionHash builtTransaction])
    /\ checkHash toyCompress toyEncode toySha3 t = Returned true.
Proof.
  eexists. split; [vm_compute; reflexivity|].
  destruct (rehashAll_checks toyCompress toyEncode toySha3
              [setTransactionHash (JString "0xforged") builtTransaction]
              [builtTransaction] [transactionHash builtTransaction] eq_refl)
    as (_ & _ & Hall).
  destruct (Hall 0%nat builtTransaction eq_refl) as [Hcheck _]. exact Hcheck.
Defined.

End TransactionStruct.

(** ** The transaction handler: workers, origins and the off-chain route *)

Module TransactionRouting.
Import TransactionClass TransactionHandler.

(** A block is added to the stored blocks. *)
Definition storeBlock (b : StoredBlock) (w : World) : World :=
  mkWorld (mkDatabase (b :: blocks (database w)) (transactions (database w)))
    (trace w) (isWorkerEnable w) (eventQueue w).

Section Routing.

Variable checkTransaction : Database -> TransactionObject -> bool -> option Exception.
Variable getTransactionSubmittedCalldata : TransactionObject -> Exception + TransactionObject.
Variable txWorkerCount : nat.
Variable workerReply : TransactionObject -> WorkerReply.
Variable getCircuitInfo : JsValue -> Exception + bool.
Variable Number : JsValue -> JsValue.

Local Abbreviation handler :=
  (transactionSubmittedEventHandler checkTransaction getTransactionSubmittedCalldata
     txWorkerCount workerReply).
Local Abbreviation submit := (submitTransaction checkTransaction).
Local Abbreviation prepared := (preparedTransaction getTransactionSubmittedCalldata).



(** An off-chain event is never decoded and always reaches the
    checks stamped ['offchain']; an event read from the chain is stamped
    with the event's own block number and L1 transaction hash, and when
    its calldata cannot be decoded the handler throws that error before
    anything is checked, logged or stored. *)
Theorem handler_origin (e : EventParams) (w : World) :
  negb (txWorkerCount =? 0) && isWorkerEnable w = false ->
  if offchain e then
    handler e w
    = inr (submit (setOrigin (JString "offchain") (JString "offchain") (data e))
             (fromBlockProposer e) w)
    /\ carriesBlockNumber
         (Some (setOrigin (JString "offchain") (JString "offchain") (data e))) = true
  else
    match getTransactionSubmittedCalldata (data e) with
    | inl err => handler e w = inl err
    | inr transaction =>
        handler e w
        = inr (submit (setOrigin (blockNumber (data e)) (transactionHash (data e))
                         transaction)
                 (fromBlockProposer e) w)
    end.
Proof using Type.
  clear getCircuitInfo Number.
  intros Hmain. unfold transactionSubmittedEventHandler.
  destruct (offchain e).
  - rewrite Hmain. split; reflexivity.
  - destruct (getTransactionSubmittedCalldata (data e)); [reflexivity|].
    rewrite Hmain. reflexivity.
Qed.

(** X14: a transaction that was accepted and stored by an off-chain
    submission is a replay as soon as a stored block holds its hash: the
    next submission of it, from any origin, changes nothing in the store
    and is logged as ignored. As long as no stored block holds it, a second
    accepted submission leaves the store as the first one did. *)
Theorem resubmission_after_block
    (d : TransactionObject) (b : StoredBlock) (flag : bool) (w : World) :
  let t := setOrigin (JString "offchain") (JString "offchain") d in
  let w1 := submit t false w in
  getBlockByTransactionHash (database w) (transactionHash t) = [] ->
  checkTransaction (database w) t true = None ->
  existsb (strictEquals (transactionHash t)) (transactionHashes b) = true ->
  transactions (database w1) !! transactionHash t = Some t
  /\ database (submit t flag (storeBlock b w1)) = database (storeBlock b w1)
  /\ effectsOf (storeBlock b w1) (submit t flag (storeBlock b w1))
     = [Received t flag;
        LogWarn (ignoredMessage "This transaction has been processed previously")]
  /\ (checkTransaction (database w1) t true = None ->
      database (submit t false w1) = database w1).
Proof using Type.
  clear getTransactionSubmittedCalldata txWorkerCount workerReply getCircuitInfo Number.
  intros t w1 Hunseen Hpass Hin.
  assert (Hfirst : checkAlreadyInBlock (database w) t = inr t)
    by (apply checkAlreadyInBlock_unseen, Hunseen).
  pose proof (submitTransaction_otherwise checkTransaction t t w Hfirst) as H1.
  rewrite Hpass in H1. destruct H1 as [Hdb1 _]. fold w1 in Hdb1.
  assert (Hstored : transactions (database w1) !! transactionHash t = Some t).
  { rewrite Hdb1. cbn. apply lookup_insert_eq. }
  split; [exact Hstored|].
  assert (Hreplay : checkAlreadyInBlock (database (storeBlock b w1)) t
                    = inl (TransactionError
                             "This transaction has been processed previously" 6)).
  { apply checkAlreadyInBlock_replay.
    - unfold getBlockByTransactionHash. cbn [storeBlock database blocks List.filter].
      rewrite Hin. discriminate.
    - unfold getTransactionByTransactionHash. cbn [storeBlock database transactions].
      rewrite Hstored. reflexivity. }
  split; [|split].
  - unfold submitTransaction. cbn [perform database]. rewrite Hreplay. reflexivity.
  - unfold effectsOf, submitTransaction. cbn [perform database]. rewrite Hreplay.
    cbn. rewrite <- app_assoc, drop_app_length. reflexivity.
  - intros Hpass1.
    assert (Hunseen1 : checkAlreadyInBlock (database w1) t = inr t).
    { apply checkAlreadyInBlock_unseen. rewrite Hdb1. exact Hunseen. }
    pose proof (submitTransaction_otherwise checkTransaction t t w1 Hunseen1) as H2.
    rewrite Hpass1 in H2. destruct H2 as [Hdb2 _]. rewrite Hdb2, Hdb1.
    unfold saveTransaction. cbn. rewrite insert_insert_eq. reflexivity.
Qed.


End Routing.

(** *** Concrete routing *)






Lemma handler_origin_witness :
  transactionSubmittedEventHandler acceptAll decodeCalldata 0 alwaysDelivered
    (mkEventParams true false builtTransaction) emptyWorld
  = inr (submitTransaction acceptAll
           (setOrigin (JString "offchain") (JString "offchain") builtTransaction)
           false emptyWorld).
Proof.
  apply (handler_origin acceptAll decodeCalldata 0 alwaysDelivered
           (mkEventParams true false builtTransaction) emptyWorld eq_refl).
Defined.

Lemma resubmission_after_block_witness :
  let t := setOrigin (JString "offchain") (JString "offchain") builtTransaction in
  let w1 := submitTransaction acceptAll t false emptyWorld in
  let w2 := storeBlock (mkStoredBlock (JString "0xb1") [builtHash]) w1 in
  database (submitTransaction acceptAll t true w2) = database w2.
Proof.
  cbv zeta.
  apply (resubmission_after_block acceptAll builtTransaction
           (mkStoredBlock (JString "0xb1") [builtHash]) true emptyWorld);
    reflexivity.
Defined.


End TransactionRouting.

(** ** The withdraw service: what a withdrawal leaves in the store *)

Module WithdrawStore.
Import TransactionClass WithdrawService.

Lemma stateOf_setState_other (c c' : Commitment) (st : CommitmentState)
    (store : CommitmentStore) :
  c' <> c -> stateOf c' (setState c st store) = stateOf c' store.
Proof.
  intros Hne. unfold stateOf, setState. induction store as [|[d sd] store IH];
    [reflexivity|].
  cbn [map List.find fst]. destruct (bool_decide (d = c)) eqn:E.
  - apply bool_decide_eq_true in E. subst d. cbn [fst].
    rewrite !(bool_decide_eq_false_2 (c = c')) by congruence. exact IH.
  - cbn [fst]. destruct (bool_decide (d = c')); [reflexivity|exact IH].
Qed.

Lemma usable_not_state (pkd erc tid : JsValue) (v : Z) (c : Commitment)
    (st : CommitmentState) (store : CommitmentStore) :
  st <> Available ->
  forall st', List.find (usable pkd erc tid v) (setState c st store) <> Some (c, st').
Proof.
  intros Hst st' Hfind. apply find_some in Hfind as [Hin Hus].
  unfold usable in Hus. repeat (apply andb_prop in Hus as [Hus ?]).
  apply bool_decide_eq_true in Hus. cbn [snd] in Hus. subst st'.
  unfold setState in Hin. apply in_map_iff in Hin as ([d sd] & Heq & _).
  cbn [fst] in Heq. destruct (bool_decide (d = c)) eqn:E.
  - injection Heq as Heq. congruence.
  - injection Heq as Hd _. apply bool_decide_eq_false in E. contradiction.
Qed.

Section Store.

Variable calculateIvkPkdfromAskNsk : JsValue -> JsValue -> outcome JsValue.
Variable newNullifier : Commitment -> JsValue -> outcome JsValue.
Variable getSiblingInfo : Commitment -> outcome SiblingInfo.
Variable witnessInput : Commitment -> JsValue -> SiblingInfo -> outcome (list JsValue).
Variable getContractInstance : outcome unit.
Variable newTransaction :
  WithdrawParams -> JsValue -> SiblingInfo -> outcome TransactionObject.
Variable encodeABI : TransactionObject -> outcome string.

Local Abbreviation withdraw' :=
  (withdraw calculateIvkPkdfromAskNsk newNullifier getSiblingInfo witnessInput
     getContractInstance newTransaction encodeABI).

(** X16: a withdrawal that fails before or at the reservation reserves
    nothing: when the keys cannot be derived it throws that error, and when
    no stored commitment is usable for the owner, asset, token id and value
    it throws 'No suitable commitments were found'; in both cases the store
    is as it was and none of the later collaborators is reached. *)
Theorem withdraw_reserves_nothing (params : WithdrawParams) (store : CommitmentStore) :
  match calculateIvkPkdfromAskNsk (p_ask params) (p_nsk params) with
  | Thrown m => withdraw' params store = (Thrown m, store)
  | Returned pkd =>
      Forall (fun entry =>
                usable pkd (p_ercAddress params) (p_tokenId params) (p_value params) entry
                = false) store ->
      withdraw' params store = (Thrown "No suitable commitments were found", store)
  end.
Proof using Type.
  unfold withdraw, findUsableCommitmentsMutex.
  destruct (calculateIvkPkdfromAskNsk (p_ask params) (p_nsk params)) as [pkd|m];
    [|reflexivity].
  intros Hnone.
  destruct (List.find _ store) as [[c st]|] eqn:E; [|reflexivity].
  apply find_some in E as [Hin Hus]. rewrite Forall_forall in Hnone.
  apply list_elem_of_In in Hin. rewrite (Hnone _ Hin) in Hus. discriminate.
Qed.

(** X17: a commitment is spent once: after a withdrawal that returned a
    transaction, the commitment it used, which was available, is nullified
    by that transaction and is not reserved again by the same request, so a
    second withdrawal that returns uses another commitment and leaves this
    one nullified by the first; every other commitment is in the state it
    was in. *)
Theorem withdraw_spends_once
    (params : WithdrawParams) (store store' : CommitmentStore)
    (raw : string) (tx : TransactionObject) :
  withdraw' params store = (Returned (raw, tx), store') ->
  exists pkd c,
    calculateIvkPkdfromAskNsk (p_ask params) (p_nsk params) = Returned pkd
    /\ In (c, Available) store
    /\ stateOf c store' = Some (Nullified (transactionHash tx))
    /\ (forall c', c' <> c -> stateOf c' store' = stateOf c' store)
    /\ fst (findUsableCommitmentsMutex pkd (p_ercAddress params) (p_tokenId params)
              (p_value params) store') <> Some c
    /\ forall raw2 tx2 store2,
         withdraw' params store' = (Returned (raw2, tx2), store2) ->
         stateOf c store2 = Some (Nullified (transactionHash tx)).
Proof using Type.
  unfold withdraw. intros Hrun.
  destruct (calculateIvkPkdfromAskNsk (p_ask params) (p_nsk params)) as [pkd|m] eqn:Ek;
    [|discriminate].
  unfold findUsableCommitmentsMutex in Hrun.
  destruct (List.find _ store) as [[c st]|] eqn:Efind; [|discriminate].
  destruct (prepare _ _ _ _ _ params c) as [tx'|] eqn:Eprep; [|discriminate].
  destruct (encodeABI tx') as [raw'|] eqn:Eenc; [|discriminate].
  injection Hrun as <- <- <-.
  apply find_usable_available in Efind as [-> Hin].
  set (h := transactionHash tx').
  assert (Hnull : stateOf c (markNullified c tx' (setState c Pending store))
                  = Some (Nullified h)).
  { unfold markNullified. apply stateOf_setState.
    unfold setState. rewrite map_map. apply in_map_iff.
    exists (c, Available). split; [|exact Hin].
    cbn [fst]. rewrite bool_decide_eq_true_2 by reflexivity. reflexivity. }
  assert (Hnever : forall st',
            List.find (usable pkd (p_ercAddress params) (p_tokenId params)
                         (p_value params))
              (markNullified c tx' (setState c Pending store)) <> Some (c, st')).
  { intros st'. unfold markNullified. apply usable_not_state. discriminate. }
  exists pkd, c. split; [reflexivity|]. split; [exact Hin|]. split; [exact Hnull|].
  split; [|split].
  - intros c' Hne. unfold markNullified.
    rewrite !stateOf_setState_other by exact Hne. reflexivity.
  - unfold findUsableCommitmentsMutex.
    destruct (List.find _ (markNullified c tx' (setState c Pending store)))
      as [[c2 st2]|] eqn:E2; cbn [fst]; [|discriminate].
    intros Heq. injection Heq as ->. exact (Hnever st2 eq_refl).
  - intros raw2 tx2 store2 Hrun2. unfold findUsableCommitmentsMutex in Hrun2.
    destruct (List.find _ (markNullified c tx' (setState c Pending store)))
      as [[c2 st2]|] eqn:E2; [|discriminate].
    assert (Hne : c <> c2).
    { intros ->. exact (Hnever st2 eq_refl). }
    destruct (prepare _ _ _ _ _ params c2) as [tx2'|]; [|discriminate].
    destruct (encodeABI tx2') as [raw2'|]; [|discriminate].
    injection Hrun2 as <- <- <-. unfold markNullified at 1.
    rewrite !stateOf_setState_other by exact Hne. exact Hnull.
Qed.

End Store.

(** *** Two withdrawals of ten tokens *)

Lemma withdraw_reserves_nothing_witness :
  withdraw keysOf nullifierOf treeUp noWitness (Returned tt) transactionOf encodes
    withdrawTen [(tenTokens, Pending)]
  = (Thrown "No suitable commitments were found", [(tenTokens, Pending)]).
Proof.
  apply (withdraw_reserves_nothing keysOf nullifierOf treeUp noWitness (Returned tt)
           transactionOf encodes withdrawTen [(tenTokens, Pending)]).
  repeat constructor.
Defined.

Lemma withdraw_spends_once_witness :
  exists store',
    withdraw keysOf nullifierOf treeUp noWitness (Returned tt) transactionOf encodes
      withdrawTen [(tenTokens, Available)]
    = (Returned ("0xraw", builtTransaction), store')
    /\ fst (findUsableCommitmentsMutex aliceKey (JString "0xerc") (JNumber 0) 10 store')
       <> Some tenTokens.
Proof.
  eexists. split; [reflexivity|].
  destruct (withdraw_spends_once keysOf nullifierOf treeUp noWitness (Returned tt)
              transactionOf encodes withdrawTen [(tenTokens, Available)] _
              "0xraw" builtTransaction eq_refl)
    as (pkd & c & Hk & _ & _ & _ & Hnot & _).
  discriminate.
Defined.

End WithdrawStore.
